(** * daily-onepager: the excerpt pipeline of [scripts/generate.py]

    A shallow embedding of the helpers of [scripts/generate.py]
    ([strip_gutenberg_boilerplate], [normalize_spaces], [split_chapters],
    [choose_important_section], [safe_html]) and of the top-level script,
    followed by the properties the specification states about them.

    Conventions of the embedding.
    - A Python [str] is the list of its code points.  The code points are
      those below 256 (the type [ascii]); on that range the character
      classes are the ones CPython uses: [str.isspace] and the regex class
      [\s] are {9..13, 28..31, 32, 133, 160}, [\w] is [str.isalnum] plus the
      underscore, and [str.lower] adds 32 to A-Z and to 192..222 except 215.
    - A Python [float] is an IEEE 754 binary64 number, modelled by
      [spec_float] with precision 53 and maximal exponent 1024; every
      arithmetic operation is the correctly rounded one of [SpecFloat].
    - A Python exception is a value [Raise e] of the type [result].
    - A text of these code points can always be encoded in UTF-8; that the
      writing of the page raises, as it does on a text that cannot be
      encoded or on an error of the disk, is an answer of the
      environment. *)

From Stdlib Require Import String.
From Stdlib Require Import List Ascii ZArith Lia Bool Arith PeanoNat.
From Stdlib Require Import Permutation Sorted DecimalString.
From Stdlib Require Import Floats.SpecFloat.
Import ListNotations.

Set Implicit Arguments.

(** ** Strings *)

Definition str := list ascii.

(** A literal of the source. *)
Definition lit (s : String.string) : str := String.list_ascii_of_string s.

Module Chr.

Definition code (c : ascii) : nat := nat_of_ascii c.

Definition nl : ascii := ascii_of_nat 10.
Definition cr : ascii := ascii_of_nat 13.
Definition space : ascii := ascii_of_nat 32.
Definition dquote : ascii := ascii_of_nat 34.

Definition between (lo hi n : nat) : bool := (lo <=? n) && (n <=? hi).

Definition is_nl (c : ascii) : bool := code c =? 10.
Definition is_cr (c : ascii) : bool := code c =? 13.

(** [str.isspace] on one character, which is also the regex class [\s]. *)
Definition isspace (c : ascii) : bool :=
  let n := code c in
  between 9 13 n || between 28 32 n || (n =? 133) || (n =? 160).

(** The regex class [[ \t\f\v]]. *)
Definition is_hspace (c : ascii) : bool :=
  let n := code c in
  (n =? 32) || (n =? 9) || (n =? 12) || (n =? 11).

(** The regex class [[-=]]. *)
Definition is_dash (c : ascii) : bool :=
  let n := code c in (n =? 45) || (n =? 61).

(** The regex class [\w]. *)
Definition is_word (c : ascii) : bool :=
  let n := code c in
  between 48 57 n || between 65 90 n || (n =? 95) || between 97 122 n
  || (n =? 170) || between 178 179 n || (n =? 181) || between 185 186 n
  || between 188 190 n || between 192 214 n || between 216 246 n
  || between 248 255 n.

(** [str.lower] on one character. *)
Definition lower (c : ascii) : ascii :=
  let n := code c in
  if between 65 90 n || (between 192 222 n && negb (n =? 215))
  then ascii_of_nat (n + 32) else c.

(** Two characters that match under [re.I]. *)
Definition eqb_ci (a b : ascii) : bool := Ascii.eqb (lower a) (lower b).

End Chr.

Module Str.

Definition eqb (a b : str) : bool :=
  if list_eq_dec ascii_dec a b then true else false.

(** [a < b] on strings: lexicographic on the code points. *)
Fixpoint ltb (a b : str) : bool :=
  match a, b with
  | _, [] => false
  | [], _ :: _ => true
  | x :: a', y :: b' =>
      if Chr.code x <? Chr.code y then true
      else if Chr.code y <? Chr.code x then false
      else ltb a' b'
  end.

Definition nonempty (s : str) : bool :=
  match s with [] => false | _ :: _ => true end.

Fixpoint dropwhile (p : ascii -> bool) (s : str) : str :=
  match s with
  | [] => []
  | c :: s' => if p c then dropwhile p s' else s
  end.

Fixpoint takewhile (p : ascii -> bool) (s : str) : str :=
  match s with
  | [] => []
  | c :: s' => if p c then c :: takewhile p s' else []
  end.

Definition lstrip (s : str) : str := dropwhile Chr.isspace s.
Definition rstrip (s : str) : str := rev (dropwhile Chr.isspace (rev s)).

(** [s.strip()] *)
Definition strip (s : str) : str := rstrip (lstrip s).

(** [s.split()]: the maximal runs of characters that are not whitespace.
    [cur] is the word being read, last character first. *)
Fixpoint split_ws_from (cur : str) (s : str) : list str :=
  match s with
  | [] => match cur with [] => [] | _ :: _ => [rev cur] end
  | c :: s' =>
      if Chr.isspace c
      then match cur with
           | [] => split_ws_from [] s'
           | _ :: _ => rev cur :: split_ws_from [] s'
           end
      else split_ws_from (c :: cur) s'
  end.

Definition split_ws (s : str) : list str := split_ws_from [] s.

(** [len(s.split())] *)
Definition words (s : str) : nat := length (split_ws s).

(** [s.split(sep)] for a separator of one character: never an empty list. *)
Fixpoint split_on_from (sep : ascii) (cur : str) (s : str) : list str :=
  match s with
  | [] => [rev cur]
  | c :: s' =>
      if Ascii.eqb c sep
      then rev cur :: split_on_from sep [] s'
      else split_on_from sep (c :: cur) s'
  end.

Definition split_on (sep : ascii) (s : str) : list str :=
  split_on_from sep [] s.

(** [sep.join(l)] *)
Fixpoint join (sep : str) (l : list str) : str :=
  match l with
  | [] => []
  | [x] => x
  | x :: l' => x ++ sep ++ join sep l'
  end.

(** [s.lower()] *)
Definition lower (s : str) : str := map Chr.lower s.

Fixpoint prefixb (p s : str) : bool :=
  match p, s with
  | [], _ => true
  | _ :: _, [] => false
  | x :: p', y :: s' => Ascii.eqb x y && prefixb p' s'
  end.

(** A literal pattern at the head of [s] under [re.I]. *)
Fixpoint prefixb_ci (p s : str) : bool :=
  match p, s with
  | [], _ => true
  | _ :: _, [] => false
  | x :: p', y :: s' => Chr.eqb_ci x y && prefixb_ci p' s'
  end.

(** [p in s] *)
Fixpoint contains (p s : str) : bool :=
  prefixb p s || match s with [] => false | _ :: s' => contains p s' end.

(** [s.find(p)]: the least index at which [p] occurs. *)
Fixpoint find (p s : str) : option nat :=
  if prefixb p s then Some 0
  else match s with
       | [] => None
       | _ :: s' => option_map S (find p s')
       end.

(** [s[i:j]] for [0 <= i] and [0 <= j]. *)
Definition slice (s : str) (i j : nat) : str := firstn (j - i) (skipn i s).

(** [s.replace(old, new)] for a pattern [old] of one character. *)
Definition replace (old : ascii) (new : str) (s : str) : str :=
  flat_map (fun c => if Ascii.eqb c old then new else [c]) s.

(** [str(n)] for a non-negative integer. *)
Definition of_nat (n : nat) : str :=
  lit (NilEmpty.string_of_uint (Nat.to_uint n)).

End Str.

(** ** Floats *)

Module F64.

Definition prec : Z := 53.
Definition emax : Z := 1024.

Definition float := spec_float.

(** [float(n)] of an integer. *)
Definition of_Z (z : Z) : float := binary_normalize prec emax z 0 false.
Definition of_nat (n : nat) : float := of_Z (Z.of_nat n).

Definition add : float -> float -> float := SFadd prec emax.
Definition sub : float -> float -> float := SFsub prec emax.
Definition mul : float -> float -> float := SFmul prec emax.
Definition div : float -> float -> float := SFdiv prec emax.
Definition eqb : float -> float -> bool := SFeqb.
Definition ltb : float -> float -> bool := SFltb.

(** [a / b] on two integers: the quotient rounded once.  [div] rounds the
    quotient of the two converted operands, which is the same float as
    long as both conversions are exact (operands below 2^53). *)
Definition int_div (a b : nat) : float := div (of_nat a) (of_nat b).

(** The literals of the source, as the binary64 numbers nearest to them. *)
Definition f0_0 : float := S754_zero false.
Definition f1_0 : float := S754_finite false 4503599627370496 (-52).
Definition f0_5 : float := S754_finite false 4503599627370496 (-53).
Definition f0_7 : float := S754_finite false 6305039478318694 (-53).
Definition f0_03 : float := S754_finite false 8646911284551352 (-58).

(** [max(a, b)]: the second argument only when it is greater. *)
Definition max (a b : float) : float := if ltb a b then b else a.

End F64.

(** ** Exceptions *)

Inductive exn : Type :=
| IndexError
| KeyError
| OSError
| JSONDecodeError
| RequestException
| HTTPError.

Inductive result (A : Type) : Type :=
| Ok (a : A)
| Raise (e : exn).

Arguments Ok {A} a.
Arguments Raise {A} e.

(** ** The regular expressions of the source

    Each pattern of the source is read as the matcher it denotes under
    CPython's leftmost, greedy, backtracking semantics.  A scan keeps in
    [skip] the number of characters of the current match that are still to
    be consumed, so that matches never overlap. *)

Module Re.

(** [re.sub] of a pattern [[cls]{m,}] (with [1 <= m]) by the constant [repl]:
    at a position where a run of at least [m] characters of the class
    starts, the whole run is the match. *)
Fixpoint sub_runs (cls : ascii -> bool) (m : nat) (repl : str)
         (skip : nat) (s : str) : str :=
  match s with
  | [] => []
  | c :: s' =>
      match skip with
      | S k => sub_runs cls m repl k s'
      | O =>
          let n := length (Str.takewhile cls s) in
          if (1 <=? n) && (m <=? n)
          then repl ++ sub_runs cls m repl (n - 1) s'
          else c :: sub_runs cls m repl 0 s'
      end
  end.

Definition stars : str := lit "***".

(** [re.search] of [kw(.*?)\*\*\*] under [re.I|re.S], for a literal [kw]:
    [(m.start(), m.end())] of the leftmost match.  The lazy group ends at
    the first [***] that follows the literal.  [pos] is the index of the
    head of [s] in the text. *)
Fixpoint search_marker (kw : str) (pos : nat) (s : str) : option (nat * nat) :=
  match (if Str.prefixb_ci kw s
         then Str.find stars (skipn (length kw) s) else None) with
  | Some j => Some (pos, pos + length kw + j + 3)
  | None =>
      match s with
      | [] => None
      | _ :: s' => search_marker kw (S pos) s'
      end
  end.

Definition heading_words : list str :=
  [lit "CHAPTER"; lit "BOOK"; lit "SECTION"].

Definition not_nl (c : ascii) : bool := negb (Chr.is_nl c).

(** A match of the heading pattern, a line break, [\s*], a group and a line
    break, where the group is one of [CHAPTER], [BOOK] and [SECTION]
    followed by [\s+\w+\.?] and the rest of the line,
    under [re.I] at the head of [s]: the text of group 1 and the length of
    the match.  Both [\s] runs are followed by a character that is not
    whitespace, so they are the maximal runs; the group ends before the
    first line break that follows its first word character. *)
Definition match_heading (s : str) : option (str * nat) :=
  match s with
  | [] => None
  | c :: s1 =>
      if Chr.is_nl c then
        let ws1 := Str.takewhile Chr.isspace s1 in
        let s2 := Str.dropwhile Chr.isspace s1 in
        match List.find (fun kw => Str.prefixb_ci kw s2) heading_words with
        | None => None
        | Some kw =>
            let k := length kw in
            let s3 := skipn k s2 in
            let ws2 := Str.takewhile Chr.isspace s3 in
            let s4 := Str.dropwhile Chr.isspace s3 in
            match ws2, s4 with
            | _ :: _, w :: _ =>
                if Chr.is_word w then
                  let line := Str.takewhile not_nl s4 in
                  match Str.dropwhile not_nl s4 with
                  | [] => None
                  | _ :: _ =>
                      Some (firstn k s2 ++ ws2 ++ line,
                            1 + length ws1 + k + length ws2 + length line + 1)
                  end
                else None
            | _, _ => None
            end
        end
      else None
  end.

(** The index after the last line break of [ws], if it has one. *)
Fixpoint after_last_nl (ws : str) : option nat :=
  match ws with
  | [] => None
  | c :: ws' =>
      match after_last_nl ws' with
      | Some e => Some (S e)
      | None => if Chr.is_nl c then Some 1 else None
      end
  end.

(** A match of [\n\s*[-=]{3,}\s*\n] at the head of [s]: its length.  The
    last [\s*] gives back what follows the last line break of the run of
    whitespace. *)
Definition match_rule (s : str) : option nat :=
  match s with
  | [] => None
  | c :: s1 =>
      if Chr.is_nl c then
        let ws1 := Str.takewhile Chr.isspace s1 in
        let s2 := Str.dropwhile Chr.isspace s1 in
        let dashes := Str.takewhile Chr.is_dash s2 in
        if 3 <=? length dashes then
          let ws2 := Str.takewhile Chr.isspace (Str.dropwhile Chr.is_dash s2) in
          match after_last_nl ws2 with
          | Some e => Some (1 + length ws1 + length dashes + e)
          | None => None
          end
        else None
      else None
  end.

(** [re.split] on the heading pattern: the text between the matches with,
    after each of them, the group of the match that follows.  [cur] is the
    piece being read, last character first. *)
Fixpoint split_heading (skip : nat) (cur : str) (s : str) : list str :=
  match s with
  | [] => [rev cur]
  | c :: s' =>
      match skip with
      | S k => split_heading k cur s'
      | O =>
          match match_heading s with
          | Some (g, n) => rev cur :: g :: split_heading (n - 1) [] s'
          | None => split_heading 0 (c :: cur) s'
          end
      end
  end.

(** [re.split] on the pattern of dashed rules, which has no group. *)
Fixpoint split_rule (skip : nat) (cur : str) (s : str) : list str :=
  match s with
  | [] => [rev cur]
  | c :: s' =>
      match skip with
      | S k => split_rule k cur s'
      | O =>
          match match_rule s with
          | Some n => rev cur :: split_rule (n - 1) [] s'
          | None => split_rule 0 (c :: cur) s'
          end
      end
  end.

End Re.

(** ** The helpers of the script *)

Definition START_OF : str := lit "*** START OF".
Definition END_OF : str := lit "*** END OF".

Definition strip_gutenberg_boilerplate (txt : str) : str :=
  let start := Re.search_marker START_OF 0 txt in
  let end_ := Re.search_marker END_OF 0 txt in
  let body :=
    Str.slice txt
      (match start with Some (_, e) => e | None => 0 end)
      (match end_ with Some (b, _) => b | None => length txt end) in
  let body := filter (fun c => negb (Chr.is_cr c)) body in
  Str.strip body.

Definition normalize_spaces (txt : str) : str :=
  Str.strip
    (Re.sub_runs Chr.is_hspace 1 [Chr.space] 0
       (Re.sub_runs Chr.is_nl 2 [Chr.nl; Chr.nl] 0 txt)).

Definition section : Type := str * str.

(** [zip(it, it)]: the items of an iterator two by two. *)
Fixpoint pairs (l : list str) : list (str * str) :=
  match l with
  | a :: b :: l' => (a, b) :: pairs l'
  | _ => []
  end.

(** The comprehension over [enumerate(rough)], from index [i] on. *)
Fixpoint numbered_sections (i : nat) (rough : list str) : list section :=
  match rough with
  | [] => []
  | s :: rest =>
      if Str.nonempty (Str.strip s)
      then (lit "Section " ++ Str.of_nat (i + 1), Str.strip s)
             :: numbered_sections (S i) rest
      else numbered_sections (S i) rest
  end.

Definition split_chapters (txt : str) : list section :=
  let parts := Re.split_heading 0 [] txt in
  if 1 <? length parts then
    let head := hd [] parts in
    let chunks :=
      if Str.nonempty (Str.strip head)
      then [(lit "Introduction", head)] else [] in
    chunks ++ map (fun tc => (Str.strip (fst tc), Str.strip (snd tc)))
                  (pairs (tl parts))
  else
    let rough := Re.split_rule 0 [] txt in
    numbered_sections 0 rough.

Definition KEYWORDS : list str :=
  [lit "introduction"; lit "preface"; lit "foreword"; lit "self-reliance";
   lit "character"; lit "discipline"; lit "habit"; lit "leadership";
   lit "strategy"; lit "decision"; lit "time"; lit "focus"; lit "resolve";
   lit "courage"; lit "thought and character"; lit "purpose"; lit "planning"].

Definition target_low : nat := 220.
Definition target_high : nat := 900.

(** An item of [scored]: [(score, idx, title, content)]. *)
Definition scored_item : Type := F64.float * nat * str * str.

Definition item_score (x : scored_item) : F64.float := fst (fst (fst x)).
Definition item_idx (x : scored_item) : nat := snd (fst (fst x)).
Definition item_title (x : scored_item) : str := snd (fst x).
Definition item_content (x : scored_item) : str := snd x.

(** The body of the loop over [KEYWORDS]. *)
Definition kw_step (t : str) (kw_score : F64.float) (kw : str) : F64.float :=
  if Str.contains kw t then F64.add kw_score F64.f0_7 else kw_score.

(** The body of the scoring loop: the score of the chunk at [idx]. *)
Definition chunk_score (idx : nat) (title content : str) : F64.float :=
  let words := Str.words content in
  let length_score :=
    if words <? target_low
    then F64.sub F64.f1_0 (F64.int_div (target_low - words) target_low)
    else if target_high <? words
    then F64.sub F64.f1_0 (F64.int_div (words - target_high) target_high)
    else F64.f1_0 in
  let t := Str.lower (title ++ [Chr.nl] ++ firstn 300 content) in
  let kw_score := fold_left (kw_step t) KEYWORDS F64.f0_0 in
  let pos_score :=
    F64.max F64.f0_0 (F64.sub F64.f0_5 (F64.mul (F64.of_nat idx) F64.f0_03)) in
  F64.add (F64.add length_score kw_score) pos_score.

(** The scoring loop: [scored] after the chunks from index [idx] on. *)
Fixpoint score_loop (idx : nat) (chunks : list section)
         (scored : list scored_item) : list scored_item :=
  match chunks with
  | [] => scored
  | (title, content) :: rest =>
      score_loop (S idx) rest
        (scored ++ [(chunk_score idx title content, idx, title, content)])
  end.

(** [a < b] on the tuples of [scored]: the first components that differ
    decide. *)
Definition item_ltb (a b : scored_item) : bool :=
  if negb (F64.eqb (item_score a) (item_score b))
  then F64.ltb (item_score a) (item_score b)
  else if negb (item_idx a =? item_idx b)
  then item_idx a <? item_idx b
  else if negb (Str.eqb (item_title a) (item_title b))
  then Str.ltb (item_title a) (item_title b)
  else if negb (Str.eqb (item_content a) (item_content b))
  then Str.ltb (item_content a) (item_content b)
  else false.

(** [list.sort]: a stable sort that compares with [<] only.  An item is
    inserted before the first item it is smaller than. *)
Fixpoint insert_sorted (x : scored_item) (l : list scored_item)
  : list scored_item :=
  match l with
  | [] => [x]
  | y :: l' => if item_ltb x y then x :: y :: l' else y :: insert_sorted x l'
  end.

Definition list_sort (l : list scored_item) : list scored_item :=
  fold_left (fun acc x => insert_sorted x acc) l [].

(** [list.sort(reverse=True)]: the list is reversed, sorted and reversed
    again, which keeps the items that compare equal in their order. *)
Definition list_sort_reverse (l : list scored_item) : list scored_item :=
  rev (list_sort (rev l)).

Definition blank_line : str := [Chr.nl; Chr.nl].

(** [[p.strip() for p in content.split("\n") if p.strip()]] *)
Definition paragraphs (content : str) : list str :=
  map Str.strip
      (filter (fun p => Str.nonempty (Str.strip p)) (Str.split_on Chr.nl content)).

(** The loop over [paras], from the state [(sel, wcount)]. *)
Fixpoint trim_loop (paras : list str) (sel : list str) (wcount : nat)
  : list str :=
  match paras with
  | [] => sel
  | p :: rest =>
      let w := Str.words p in
      if (580 <? wcount + w) && negb (length sel =? 0)
      then sel
      else trim_loop rest (sel ++ [p]) (wcount + w)
  end.

(** [chosen] for a candidate of content [content]. *)
Definition trimmed (content : str) : str :=
  Str.strip (Str.join blank_line (trim_loop (paragraphs content) [] 0)).

(** The loop over the ranked candidates; [None] when it runs to its end. *)
Fixpoint select_loop (scored : list scored_item) : option (str * str) :=
  match scored with
  | [] => None
  | x :: rest =>
      let chosen := trimmed (item_content x) in
      if 220 <=? Str.words chosen
      then Some (item_title x, chosen)
      else select_loop rest
  end.

(** The candidates in the order in which the loop tries them. *)
Definition ranked (chunks : list section) : list scored_item :=
  list_sort_reverse (score_loop 0 chunks []).

Definition choose_important_section (chunks : list section)
  : result (str * str) :=
  match select_loop (ranked chunks) with
  | Some r => Ok r
  | None =>
      match chunks with
      | [] => Raise IndexError
      | (title, content) :: _ => Ok (title, firstn 1200 content)
      end
  end.

Definition safe_html (s : str) : str :=
  Str.replace ">"%char (lit "&gt;")
    (Str.replace "<"%char (lit "&lt;")
       (Str.replace "&"%char (lit "&amp;") s)).

(** ** The script

    The statements at the top level of [generate.py], run in a world made of
    the directories and files of the disk and of what was printed.  What
    the script gets from outside is in [env]: the parser of the catalog,
    the index [random.choice] draws, the answer of the server, the date,
    and what the operating system answers about a path that is not
    recorded as such, about the writing of the page and about the
    printing.  A file holds the UTF-8 encoding of the text written to
    it. *)

Module Script.

Definition OUT_DIR : str := lit "docs".
Definition COVERS_DIR : str := lit "docs/covers".
Definition BOOKS_FILE : str := lit "books.json".
Definition INDEX_HTML : str := OUT_DIR ++ lit "/" ++ lit "index.html".

Definition bytes := list ascii.

(** The keys of a catalog entry that the script reads. *)
Record book : Type := {
  bk_title : option str;
  bk_author : option str;
  bk_gutenberg_url : option str;
  bk_cover : option str
}.

Record response : Type := {
  status_code : nat;
  text : str
}.

Record env : Type := {
  json_load : bytes -> result (list book);
  random_index : nat;
  requests_get : str -> result response;
  today_text : str;
  (** [os.path.exists] on a path that is recorded neither as a file nor as
      a directory: another spelling of a recorded path, or nothing. *)
  os_path_exists : str -> bool;
  (** [f.write] and the closing of the file, for the encoded text: no
      error, or an exception raised when so many bytes have reached the
      file. *)
  write_error : bytes -> option (exn * nat);
  (** [print]: no error, or an exception. *)
  print_error : option exn
}.

Record world : Type := {
  dirs : list str;
  files : list (str * bytes);
  stdout : list str
}.

(** [str.encode("utf-8")] on the code points below 256. *)
Definition utf8 (s : str) : bytes :=
  flat_map
    (fun c =>
       let n := Chr.code c in
       if n <? 128 then [c]
       else [ascii_of_nat (192 + n / 64); ascii_of_nat (128 + n mod 64)])
    s.

Fixpoint lookup (p : str) (fs : list (str * bytes)) : option bytes :=
  match fs with
  | [] => None
  | (q, c) :: fs' => if Str.eqb p q then Some c else lookup p fs'
  end.

Fixpoint store (p : str) (c : bytes) (fs : list (str * bytes))
  : list (str * bytes) :=
  match fs with
  | [] => [(p, c)]
  | (q, d) :: fs' =>
      if Str.eqb p q then (p, c) :: fs' else (q, d) :: store p c fs'
  end.

(** A statement: from a world to the world it leaves and its outcome. *)
Definition io (A : Type) : Type := world -> world * result A.

Definition ret {A : Type} (a : A) : io A := fun w => (w, Ok a).

Definition lift {A : Type} (r : result A) : io A := fun w => (w, r).

Definition seq {A B : Type} (m : io A) (k : A -> io B) : io B :=
  fun w =>
    match m w with
    | (w', Ok a) => k a w'
    | (w', Raise e) => (w', Raise e)
    end.

Notation "x <~ m ;; k" := (seq m (fun x => k))
  (at level 61, m at next level, right associativity).

(** [os.makedirs(p, exist_ok=True)] *)
Definition makedirs (p : str) : io unit :=
  fun w =>
    match lookup p (files w) with
    | Some _ => (w, Raise OSError)
    | None =>
        ({| dirs := p :: dirs w; files := files w; stdout := stdout w |},
         Ok tt)
    end.

(** [open(p, "r", encoding="utf-8")] and the reading of the file. *)
Definition read_file (p : str) : io bytes :=
  fun w =>
    match lookup p (files w) with
    | Some c => (w, Ok c)
    | None => (w, Raise OSError)
    end.

(** [with open(p, "w", encoding="utf-8") as f: f.write(s)], [s] encoded.
    The opening raises on a directory and leaves the disk as it is;
    otherwise it empties the file, or makes it, before anything is
    written.  When the writing raises, the file holds what had reached
    it. *)
Definition write_file (e : env) (p : str) (c : bytes) : io unit :=
  fun w =>
    if existsb (Str.eqb p) (dirs w) then (w, Raise OSError)
    else
      match write_error e c with
      | Some (ex, n) =>
          ({| dirs := dirs w; files := store p (firstn n c) (files w);
              stdout := stdout w |},
           Raise ex)
      | None =>
          ({| dirs := dirs w; files := store p c (files w);
              stdout := stdout w |},
           Ok tt)
      end.

(** [os.path.exists(p)]: a recorded file or directory exists; for any
    other path the operating system answers. *)
Definition path_exists (e : env) (p : str) : io bool :=
  fun w =>
    (w, match lookup p (files w) with
        | Some _ => Ok true
        | None =>
            Ok (existsb (Str.eqb p) (dirs w) || os_path_exists e p)
        end).

Definition print (e : env) (s : str) : io unit :=
  fun w =>
    match print_error e with
    | Some ex => (w, Raise ex)
    | None =>
        ({| dirs := dirs w; files := files w; stdout := stdout w ++ [s] |},
         Ok tt)
    end.

(** [random.choice(catalog)] *)
Definition random_choice (e : env) (catalog : list book) : result book :=
  match nth_error catalog (random_index e mod length catalog) with
  | Some b => Ok b
  | None => Raise IndexError
  end.

(** [book[key]] *)
Definition getitem (field : option str) : result str :=
  match field with
  | Some v => Ok v
  | None => Raise KeyError
  end.

(** [resp.raise_for_status()] *)
Definition raise_for_status (r : response) : result unit :=
  if (400 <=? status_code r) && (status_code r <? 600)
  then Raise HTTPError else Ok tt.

(** A match of the pattern of line 103 under [re.I] at the head of [s],
    a line break and [\s*] (group 1), one of [CHAPTER], [BOOK] and [SECTION]
    (group 2) and [\b]: the text of group 2 and the length of the match. *)
Definition match_break (s : str) : option (str * nat) :=
  match s with
  | [] => None
  | c :: s1 =>
      if Chr.is_nl c then
        let ws := Str.takewhile Chr.isspace s1 in
        let s2 := Str.dropwhile Chr.isspace s1 in
        match List.find (fun kw => Str.prefixb_ci kw s2) Re.heading_words with
        | None => None
        | Some kw =>
            let k := length kw in
            match skipn k s2 with
            | w :: _ =>
                if Chr.is_word w then None
                else Some (firstn k s2, 1 + length ws + k)
            | [] => Some (firstn k s2, 1 + length ws + k)
            end
        end
      else None
  end.

(** [re.sub] of that pattern by a blank line and group 2. *)
Fixpoint sub_breaks (skip : nat) (s : str) : str :=
  match s with
  | [] => []
  | c :: s' =>
      match skip with
      | S k => sub_breaks k s'
      | O =>
          match match_break s with
          | Some (g, n) => blank_line ++ g ++ sub_breaks (n - 1) s'
          | None => c :: sub_breaks 0 s'
          end
      end
  end.

(** A line of the template, where a backquote stands for the double quote
    of the source. *)
Definition ln (s : string) : bytes :=
  map (fun c => if Ascii.eqb c "`"%char then Chr.dquote else c) (lit s)
      ++ [Chr.nl].

(** The bullet of the title, U+2022, encoded. *)
Definition bullet : bytes := map ascii_of_nat [226; 128; 162].

Definition page_head (today : str) : bytes :=
  ln "<!doctype html>"
  ++ ln "<html lang=`en`>"
  ++ ln "<head>"
  ++ ln "<meta charset=`utf-8` />"
  ++ ln "<meta name=`viewport` content=`width=device-width,initial-scale=1` />"
  ++ lit "<title>Daily One-Pager " ++ bullet ++ lit " " ++ utf8 today
  ++ ln "</title>"
  ++ ln "<style>"
  ++ ln "  body { font-family: system-ui, -apple-system, Segoe UI, Roboto, Arial, sans-serif; margin:0; background:#0f172a; color:#e2e8f0; }"
  ++ ln "  .wrap { max-width: 820px; margin: 56px auto; padding: 0 20px; }"
  ++ ln "  .card { background:#111827; border-radius:20px; padding:28px; box-shadow:0 10px 30px rgba(0,0,0,.35); }"
  ++ ln "  h1 { margin: 0 0 6px; font-size: 26px; }"
  ++ ln "  .meta { opacity:.85; font-size:14px; margin-bottom:16px }"
  ++ ln "  .cover { width: 160px; height: 220px; background:#1f2937; border-radius:8px; margin: 6px 0 18px; display:block; }"
  ++ ln "  .nocover { display:flex; align-items:center; justify-content:center; color:#94a3b8; font-size:13px; }"
  ++ ln "  p { line-height:1.75; white-space:pre-wrap; }"
  ++ ln "  .section { font-size: 16px; opacity:.9; margin-top: -6px; margin-bottom:12px; }"
  ++ ln "</style>"
  ++ ln "</head>".

Definition cover_block (cover_path : str) (cover_exists : bool) : bytes :=
  if cover_exists
  then lit "<img class='cover' alt='Book cover' src='"
         ++ utf8 (safe_html cover_path) ++ lit "' />"
  else lit "<div class='cover nocover'>cover image not found</div>".

Definition page_body (today title author cover_path : str)
           (cover_exists : bool) (section_title passage : str) : bytes :=
  ln "<body>"
  ++ ln "  <div class=`wrap`>"
  ++ ln "    <div class=`card`>"
  ++ lit "      <div class=" ++ [Chr.dquote] ++ lit "meta" ++ [Chr.dquote]
  ++ lit ">" ++ utf8 (safe_html today) ++ ln "</div>"
  ++ lit "      <h1>" ++ utf8 (safe_html title) ++ ln "</h1>"
  ++ lit "      <div class=" ++ [Chr.dquote] ++ lit "meta" ++ [Chr.dquote]
  ++ lit ">by " ++ utf8 (safe_html author) ++ ln "</div>"
  ++ lit "      " ++ cover_block cover_path cover_exists ++ [Chr.nl]
  ++ lit "      <div class=" ++ [Chr.dquote] ++ lit "section" ++ [Chr.dquote]
  ++ lit ">" ++ utf8 (safe_html section_title) ++ ln "</div>"
  ++ lit "      <p>" ++ utf8 (safe_html passage) ++ ln "</p>"
  ++ ln "    </div>"
  ++ ln "  </div>"
  ++ ln "</body>"
  ++ lit "</html>".

(** The encoded page. *)
Definition page (today title author cover_path : str)
           (cover_exists : bool) (section_title passage : str) : bytes :=
  page_head today
  ++ page_body today title author cover_path cover_exists
               section_title passage.

(** The lines 97 to 99. *)
Definition fetch (e : env) (b : book) : io str :=
  url <~ lift (getitem (bk_gutenberg_url b)) ;;
  resp <~ lift (requests_get e url) ;;
  _ <~ lift (raise_for_status resp) ;;
  ret (text resp).

(** The lines 101 to 108. *)
Definition pick (raw : str) : result (str * str) :=
  let body := strip_gutenberg_boilerplate raw in
  let body := sub_breaks 0 body in
  let chunks := split_chapters body in
  let chunks :=
    match chunks with
    | [] => [(lit "Passage", firstn 1800 body)]
    | _ :: _ => chunks
    end in
  choose_important_section chunks.

(** The lines 111 to 150. *)
Definition build (e : env) (b : book) (section_title passage : str)
  : io unit :=
  let today := today_text e in
  let cover_path :=
    lit "covers/"
      ++ match bk_cover b with Some c => c | None => lit "placeholder.jpg" end in
  cover_exists <~ path_exists e (OUT_DIR ++ lit "/" ++ cover_path) ;;
  title <~ lift (getitem (bk_title b)) ;;
  author <~ lift (getitem (bk_author b)) ;;
  let html :=
    page today title author cover_path cover_exists section_title passage in
  _ <~ write_file e INDEX_HTML html ;;
  print e (lit "Generated daily one-pager.").

(** The whole script. *)
Definition main (e : env) : io unit :=
  _ <~ makedirs OUT_DIR ;;
  _ <~ makedirs COVERS_DIR ;;
  raw_catalog <~ read_file BOOKS_FILE ;;
  catalog <~ lift (json_load e raw_catalog) ;;
  b <~ lift (random_choice e catalog) ;;
  raw <~ fetch e b ;;
  sp <~ lift (pick raw) ;;
  build e b (fst sp) (snd sp).

End Script.

(** * The specification

    The notions the statements below are written with: what the
    specification says in its own words, next to the program above. *)

(** *** Strings and pages *)

(** The first character of [s], if any, is not whitespace. *)
Definition head_ok (s : str) : bool :=
  match s with
  | [] => true
  | c :: _ => negb (Chr.isspace c)
  end.

(** [s] has no whitespace at either end. *)
Definition tight (s : str) : Prop :=
  head_ok s = true /\ head_ok (rev s) = true.

(** What the escaping does to one character. *)
Definition html_entity (c : ascii) : str :=
  if Ascii.eqb c "&"%char then lit "&amp;"
  else if Ascii.eqb c "<"%char then lit "&lt;"
  else if Ascii.eqb c ">"%char then lit "&gt;"
  else [c].

Definition is_special (c : ascii) : bool :=
  Ascii.eqb c "&"%char || Ascii.eqb c "<"%char || Ascii.eqb c ">"%char.

(** The words of a list of paragraphs. *)
Definition total_words (l : list str) : nat :=
  fold_right (fun p n => Str.words p + n) 0 l.

(** *** The order of the candidates *)

(** A float that is not a NaN, as a triple of integers whose lexicographic
    order is the order of the floats. *)
Definition float_key (x : F64.float) : option (Z * Z * Z) :=
  match x with
  | S754_nan => None
  | S754_zero _ => Some (0, 0, 0)%Z
  | S754_infinity false => Some (2, 0, 0)%Z
  | S754_infinity true => Some (-2, 0, 0)%Z
  | S754_finite false m e => Some (1, e, Zpos m)%Z
  | S754_finite true m e => Some (-1, - e, Zneg m)%Z
  end.

Definition key_lt (a b : Z * Z * Z) : Prop :=
  let '(a1, a2, a3) := a in
  let '(b1, b2, b3) := b in
  (a1 < b1 \/ (a1 = b1 /\ (a2 < b2 \/ (a2 = b2 /\ a3 < b3))))%Z.

(** One component of the comparison of two tuples: its [==] and its [<],
    with what makes a lexicographic chain of them a strict order. *)
Record level (A : Type) (eq lt : A -> A -> bool) : Prop := {
  lv_eq_sym : forall a b, eq a b = true -> eq b a = true;
  lv_eq_trans : forall a b c, eq a b = true -> eq b c = true -> eq a c = true;
  lv_lt_trans : forall a b c, lt a b = true -> lt b c = true -> lt a c = true;
  lv_lt_eq : forall a b c, lt a b = true -> eq b c = true -> lt a c = true;
  lv_eq_lt : forall a b c, eq a b = true -> lt b c = true -> lt a c = true;
  lv_lt_neq : forall a b, lt a b = true -> eq a b = false;
  lv_lt_asym : forall a b, lt a b = true -> lt b a = false
}.

(** The comparison that asks [eq] and [lt] first and [rest] on a tie. *)
Definition chain {A : Type} (eq lt rest : A -> A -> bool) (a b : A) : bool :=
  if negb (eq a b) then lt a b else rest a b.

Definition str_eq_on (f : scored_item -> str) (a b : scored_item) : bool :=
  Str.eqb (f a) (f b).
Definition str_lt_on (f : scored_item -> str) (a b : scored_item) : bool :=
  Str.ltb (f a) (f b).
Definition score_eq (a b : scored_item) : bool :=
  F64.eqb (item_score a) (item_score b).
Definition score_lt (a b : scored_item) : bool :=
  F64.ltb (item_score a) (item_score b).
Definition idx_eq (a b : scored_item) : bool := item_idx a =? item_idx b.
Definition idx_lt (a b : scored_item) : bool := item_idx a <? item_idx b.

(** The items the scoring loop appends for the chunks from index [idx] on. *)
Fixpoint score_from (idx : nat) (chunks : list section) : list scored_item :=
  match chunks with
  | [] => []
  | (title, content) :: rest =>
      (chunk_score idx title content, idx, title, content)
        :: score_from (S idx) rest
  end.

(** No item is smaller than an item before it. *)
Definition ascending : list scored_item -> Prop :=
  StronglySorted (fun a b => item_ltb b a = false).

(** No item is smaller than an item after it. *)
Definition descending : list scored_item -> Prop :=
  StronglySorted (fun a b => item_ltb a b = false).

(** The candidate clears the minimum of 220 words once trimmed. *)
Definition acceptable (x : scored_item) : bool :=
  220 <=? Str.words (trimmed (item_content x)).

(** *** The score as the specification words it *)

(** 1.0, less the shortfall below 220 words or the overage above 900 as a
    fraction of the threshold. *)
Definition length_fit (w : nat) : F64.float :=
  if w <? 220
  then F64.sub F64.f1_0 (F64.div (F64.of_nat (220 - w)) (F64.of_nat 220))
  else if 900 <? w
  then F64.sub F64.f1_0 (F64.div (F64.of_nat (w - 900)) (F64.of_nat 900))
  else F64.f1_0.

(** [kw] occurs in [text] up to the case of the letters. *)
Fixpoint occurs_ci (kw text : str) : bool :=
  Str.prefixb_ci kw text
  || match text with [] => false | _ :: text' => occurs_ci kw text' end.

(** The keywords found in the title, a line break and the first 300
    characters of the content. *)
Definition keyword_hits (title content : str) : list str :=
  filter (fun kw => occurs_ci kw (title ++ [Chr.nl] ++ firstn 300 content))
         KEYWORDS.

(** 0.7 added [n] times to 0.0. *)
Fixpoint times_0_7 (n : nat) : F64.float :=
  match n with
  | 0 => F64.f0_0
  | S n' => F64.add (times_0_7 n') F64.f0_7
  end.

Definition keyword_bonus (title content : str) : F64.float :=
  times_0_7 (length (keyword_hits title content)).

Definition position_bonus (i : nat) : F64.float :=
  F64.max F64.f0_0 (F64.sub F64.f0_5 (F64.mul F64.f0_03 (F64.of_nat i))).

Definition spec_score (i : nat) (title content : str) : F64.float :=
  F64.add (F64.add (length_fit (Str.words content))
                   (keyword_bonus title content))
          (position_bonus i).

(** *** The trimming as the specification words it *)

(** The paragraphs of a content: its lines, split on line breaks, each
    without the whitespace at its ends, the empty ones left out. *)
Definition spec_paragraphs (content : str) : list str :=
  filter Str.nonempty (map Str.strip (Str.split_on Chr.nl content)).

(** The paragraphs, in their order, that are added to a buffer of [used]
    words: each one that leaves the count within 580 words, up to the first
    one that would push it past them. *)
Fixpoint within_budget (used : nat) (paras : list str) : list str :=
  match paras with
  | [] => []
  | p :: rest =>
      if used + Str.words p <=? 580
      then p :: within_budget (used + Str.words p) rest
      else []
  end.

(** The greedy trimming rule: the first paragraph, always, and the
    paragraphs after it that the 580 words admit, joined by blank lines. *)
Definition greedy_trim (content : str) : str :=
  match spec_paragraphs content with
  | [] => []
  | p :: rest => Str.join blank_line (p :: within_budget (Str.words p) rest)
  end.

(** *** Inputs *)

(** The input on which two sections tie: nine lines of 106 words and nine
    lines of 103 words. *)
Definition word_line (n : nat) : str :=
  Str.join [Chr.space] (repeat (lit "w") n).

Definition tie_chunks : list section :=
  [(lit "A", Str.join [Chr.nl] (repeat (word_line 106) 9));
   (lit "B", Str.join [Chr.nl] (repeat (word_line 103) 9))].

(** A paragraph of 600 words followed by a short one. *)
Definition long_first : list str := [word_line 600; word_line 5].

(** A long section behind a short one of higher score: a preface of two
    words whose title has three keywords, and seven lines of 100 words. *)
Definition skip_chunks : list section :=
  [(lit "Preface, foreword, introduction", lit "Too short.");
   (lit "Long", Str.join [Chr.nl] (repeat (word_line 100) 7))].

(** *** The sections as the specification words them *)

(** The text before the first heading, when it is not blank. *)
Definition intro_section (head : str) : list section :=
  if Str.nonempty (Str.strip head) then [(lit "Introduction", head)] else [].

(** The headings with the text that follows each, both trimmed. *)
Definition headed_sections (parts : list str) : list section :=
  map (fun tc => (Str.strip (fst tc), Str.strip (snd tc))) (pairs (tl parts)).

(** The chunks between the dashed rules that are not blank, in their order,
    each trimmed and under the number of its chunk. *)
Definition fallback_sections (rough : list str) : list section :=
  map (fun ns => (lit "Section " ++ Str.of_nat (fst ns + 1), Str.strip (snd ns)))
      (filter (fun ns => Str.nonempty (Str.strip (snd ns)))
              (combine (seq 0 (length rough)) rough)).

(** *** The markers as the specification words them *)

(** The closing token [***] is at index [j] of [txt]. *)
Definition stars_at (txt : str) (j : nat) : Prop :=
  Str.prefixb Re.stars (skipn j txt) = true.

(** A marker spans [txt[p:q]]: the literal [kw], in any case, at [p], and
    the first closing token after it, which ends at [q]. *)
Definition marker_span (kw txt : str) (p q : nat) : Prop :=
  Str.prefixb_ci kw (skipn p txt) = true
  /\ p + length kw + 3 <= q
  /\ stars_at txt (q - 3)
  /\ forall j, p + length kw <= j < q - 3 -> ~ stars_at txt j.

(** A marker starts at [p]. *)
Definition marker_from (kw txt : str) (p : nat) : Prop :=
  Str.prefixb_ci kw (skipn p txt) = true
  /\ exists j, p + length kw <= j /\ stars_at txt j.

(** The marker found in [txt] is the leftmost one, if there is one. *)
Definition marker_found (kw txt : str) (m : option (nat * nat)) : Prop :=
  match m with
  | Some (p, q) =>
      marker_span kw txt p q /\ forall p', p' < p -> ~ marker_from kw txt p'
  | None => forall p, ~ marker_from kw txt p
  end.

(** The body between the markers, each bound taken from the whole text
    when its marker is absent. *)
Definition body_between (txt : str) (start end_ : option (nat * nat)) : str :=
  match start, end_ with
  | Some (_, start_end), Some (end_start, _) => Str.slice txt start_end end_start
  | Some (_, start_end), None => skipn start_end txt
  | None, Some (end_start, _) => firstn end_start txt
  | None, None => txt
  end.

Definition remove_cr (s : str) : str :=
  filter (fun c => negb (Ascii.eqb c Chr.cr)) s.

(** *** The two substitutions of the normalizer as machines *)

(** The substitution of the runs of line breaks, read after [n] line breaks
    of a run: the first two of a run are copied, the others dropped. *)
Fixpoint squeeze_nl (n : nat) (s : str) : str :=
  match s with
  | [] => []
  | c :: s' =>
      if Chr.is_nl c
      then if n <? 2 then c :: squeeze_nl (S n) s' else squeeze_nl (S n) s'
      else c :: squeeze_nl 0 s'
  end.

(** The substitution of the runs of horizontal whitespace, read inside a
    run or not: a run becomes one space. *)
Fixpoint squeeze_hs (inrun : bool) (s : str) : str :=
  match s with
  | [] => []
  | c :: s' =>
      if Chr.is_hspace c
      then if inrun then squeeze_hs true s'
           else Chr.space :: squeeze_hs true s'
      else c :: squeeze_hs false s'
  end.

(** [s], read after [n] line breaks, has no run of more than two. *)
Fixpoint nl_ok (n : nat) (s : str) : bool :=
  match s with
  | [] => true
  | c :: s' =>
      if Chr.is_nl c then (n <? 2) && nl_ok (S n) s' else nl_ok 0 s'
  end.

(** The horizontal whitespace of [s], read inside a run or not, is made of
    single spaces. *)
Fixpoint hs_ok (inrun : bool) (s : str) : bool :=
  match s with
  | [] => true
  | c :: s' =>
      if Chr.is_hspace c
      then negb inrun && Ascii.eqb c Chr.space && hs_ok true s'
      else hs_ok false s'
  end.

Module ScriptSpec.

Import Script.

(** The run from [w] gets as far as the request of the line 97, for the
    address [url]: the directories can be made, the catalog is read and
    parsed, and the entry drawn from it has an address, [url]. *)
Definition reaches_fetch (e : env) (w : world) (url : str) : Prop :=
  lookup OUT_DIR (files w) = None
  /\ lookup COVERS_DIR (files w) = None
  /\ exists raw_catalog catalog b,
       lookup BOOKS_FILE (files w) = Some raw_catalog
       /\ json_load e raw_catalog = Ok catalog
       /\ random_choice e catalog = Ok b
       /\ bk_gutenberg_url b = Some url.

(** The fetch of the lines 97 to 99 at [url] fails with [ex]:
    [requests.get] raises it (a network error, a timeout), or the status
    of the answer makes [raise_for_status] raise it. *)
Definition fetch_fails (e : env) (url : str) (ex : exn) : Prop :=
  requests_get e url = Raise ex
  \/ exists r, requests_get e url = Ok r /\ raise_for_status r = Raise ex.

(** A catalog of one entry, as the file holds it and as it is parsed.  In
    the text a backquote stands for the double quote. *)
Definition one_book_url : str :=
  lit "https://www.gutenberg.org/files/16643.txt".

Definition one_book : book :=
  {| bk_title := Some (lit "Self-Reliance");
     bk_author := Some (lit "Ralph Waldo Emerson");
     bk_gutenberg_url := Some one_book_url;
     bk_cover := None |}.

Definition catalog_text : bytes :=
  map (fun c => if Ascii.eqb c "`"%char then Chr.dquote else c)
      (lit "[{`title`: `Self-Reliance`, `author`: `Ralph Waldo Emerson`, `gutenberg_url`: `https://www.gutenberg.org/files/16643.txt`}]").

Definition parse_catalog (raw : bytes) : result (list book) :=
  if Str.eqb raw catalog_text then Ok [one_book] else Raise JSONDecodeError.

Definition answer (status : nat) (s : string) : result response :=
  Ok {| status_code := status; text := lit s |}.

(** An environment whose server answers every address, and in which
    nothing else goes wrong. *)
Definition env_up : env :=
  {| json_load := parse_catalog;
     random_index := 0;
     requests_get := fun _ => answer 200 "Trust thyself.";
     today_text := lit "November 03, 2026";
     os_path_exists := fun _ => false;
     write_error := fun _ => None;
     print_error := None |}.

(** The request for the address of the book raises; any other address
    would be answered. *)
Definition env_down : env :=
  {| json_load := parse_catalog;
     random_index := 0;
     requests_get :=
       fun url =>
         if Str.eqb url one_book_url then Raise RequestException
         else answer 200 "Trust thyself.";
     today_text := lit "November 03, 2026";
     os_path_exists := fun _ => false;
     write_error := fun _ => None;
     print_error := None |}.

(** The server answers the address of the book with the status 404. *)
Definition env_not_found : env :=
  {| json_load := parse_catalog;
     random_index := 0;
     requests_get :=
       fun url =>
         if Str.eqb url one_book_url then answer 404 "Not Found"
         else answer 200 "Trust thyself.";
     today_text := lit "November 03, 2026";
     os_path_exists := fun _ => false;
     write_error := fun _ => None;
     print_error := None |}.

(** The writing of the page raises before a byte has reached the file. *)
Definition env_write_raises : env :=
  {| json_load := parse_catalog;
     random_index := 0;
     requests_get := fun _ => answer 200 "Trust thyself.";
     today_text := lit "November 03, 2026";
     os_path_exists := fun _ => false;
     write_error := fun _ => Some (OSError, 0);
     print_error := None |}.

Definition old_page : bytes := lit "<html>yesterday</html>".

Definition disk : world :=
  {| dirs := [OUT_DIR];
     files := [(BOOKS_FILE, catalog_text); (INDEX_HTML, old_page)];
     stdout := [] |}.

End ScriptSpec.

(** *** More notions: words, ink, titles and effects *)

(** The number of words of [s], read inside a word or not. *)
Fixpoint count_words (inword : bool) (s : str) : nat :=
  match s with
  | [] => if inword then 1 else 0
  | c :: s' =>
      if Chr.isspace c
      then (if inword then 1 else 0) + count_words false s'
      else count_words true s'
  end.

(** A character that is not whitespace. *)
Definition is_ink (c : ascii) : bool := negb (Chr.isspace c).

(** The text of [s] without its whitespace. *)
Definition ink (s : str) : str := filter is_ink s.

(** A title starts with one of the heading words, in any case. *)
Definition heading_title (t : str) : Prop :=
  exists kw, In kw Re.heading_words /\ Str.prefixb_ci kw t = true.

Module ScriptEffects.

Import Script.

(** The path of the cover of a catalog entry, under [docs]. *)
Definition cover_path_of (b : book) : str :=
  lit "covers/"
    ++ match bk_cover b with Some c => c | None => lit "placeholder.jpg" end.

End ScriptEffects.

(** * Properties *)

(** ** Strings *)

Module StrFacts.

Import Str.

Lemma dropwhile_head_ok (s : str) : head_ok (dropwhile Chr.isspace s) = true.
Proof.
  induction s as [|c s IH]; simpl; [reflexivity|].
  destruct (Chr.isspace c) eqn:E; [exact IH|]. simpl. now rewrite E.
Qed.

Lemma dropwhile_fix (s : str) : head_ok s = true -> dropwhile Chr.isspace s = s.
Proof.
  destruct s as [|c s]; simpl; [reflexivity|].
  now destruct (Chr.isspace c).
Qed.

Lemma takewhile_dropwhile (p : ascii -> bool) (s : str) :
  takewhile p s ++ dropwhile p s = s.
Proof.
  induction s as [|c s IH]; simpl; [reflexivity|].
  destruct (p c); simpl; [now rewrite IH | reflexivity].
Qed.

Lemma dropwhile_suffix (p : ascii -> bool) (s : str) :
  exists t, s = t ++ dropwhile p s.
Proof. exists (takewhile p s). symmetry. apply takewhile_dropwhile. Qed.

Lemma rstrip_prefix (s : str) : exists t, s = rstrip s ++ t.
Proof.
  unfold rstrip. destruct (dropwhile_suffix Chr.isspace (rev s)) as [t Ht].
  exists (rev t). rewrite <- rev_app_distr, <- Ht. now rewrite rev_involutive.
Qed.

Lemma head_ok_prefix (a b : str) : head_ok (a ++ b) = true -> head_ok a = true.
Proof. destruct a; simpl; auto. Qed.

Lemma strip_tight (s : str) : tight (strip s).
Proof.
  unfold tight, strip. split.
  - destruct (rstrip_prefix (lstrip s)) as [t Ht].
    apply head_ok_prefix with (b := t). rewrite <- Ht.
    apply dropwhile_head_ok.
  - unfold rstrip. rewrite rev_involutive. apply dropwhile_head_ok.
Qed.

Lemma tight_strip (s : str) : tight s -> strip s = s.
Proof.
  intros [H1 H2]. unfold strip, lstrip, rstrip.
  rewrite (dropwhile_fix _ H1), (dropwhile_fix _ H2).
  apply rev_involutive.
Qed.

Lemma strip_idem (s : str) : strip (strip s) = strip s.
Proof. apply tight_strip, strip_tight. Qed.

Lemma strip_nil : strip [] = [].
Proof. reflexivity. Qed.

Lemma head_ok_app (a b : str) :
  a <> [] -> head_ok a = true -> head_ok (a ++ b) = true.
Proof. destruct a; simpl; congruence. Qed.

Lemma nonempty_true (s : str) : nonempty s = true <-> s <> [].
Proof. destruct s; simpl; split; congruence. Qed.

(** A joined list of tight, non-empty strings is tight. *)
Lemma join_tight (sep : str) (l : list str) :
  Forall (fun p => p <> [] /\ tight p) l -> tight (join sep l).
Proof.
  induction 1 as [|p l [Hne [H1 H2]] Hl IH].
  - split; reflexivity.
  - destruct l as [|q l]; [now split|].
    change (join sep (p :: q :: l)) with (p ++ sep ++ join sep (q :: l)).
    split.
    + now apply head_ok_app.
    + rewrite !rev_app_distr, <- app_assoc.
      destruct IH as [_ IH2].
      assert (Hq : join sep (q :: l) <> []).
      { inversion Hl as [|? ? [Hq _] _]; subst.
        destruct l; simpl; [exact Hq|]. destruct q; simpl; congruence. }
      apply head_ok_app; [|exact IH2].
      intros E. apply Hq. apply (f_equal (@rev _)) in E.
      now rewrite rev_involutive in E.
Qed.

End StrFacts.

Import StrFacts.

Lemma replace_app (old : ascii) (new a b : str) :
  Str.replace old new (a ++ b) = Str.replace old new a ++ Str.replace old new b.
Proof. unfold Str.replace. apply flat_map_app. Qed.

Lemma safe_html_app (a b : str) : safe_html (a ++ b) = safe_html a ++ safe_html b.
Proof. unfold safe_html. now rewrite !replace_app. Qed.

Lemma safe_html_char (c : ascii) : safe_html [c] = html_entity c.
Proof.
  unfold html_entity.
  destruct (Ascii.eqb c "&") eqn:E1; [apply Ascii.eqb_eq in E1; now subst|].
  destruct (Ascii.eqb c "<") eqn:E2; [apply Ascii.eqb_eq in E2; now subst|].
  destruct (Ascii.eqb c ">") eqn:E3; [apply Ascii.eqb_eq in E3; now subst|].
  unfold safe_html, Str.replace. simpl. rewrite E1. simpl. rewrite E2. simpl.
  now rewrite E3.
Qed.

Lemma safe_html_flat_map (s : str) : safe_html s = flat_map html_entity s.
Proof.
  induction s as [|c s IH]; [reflexivity|].
  change (c :: s) with ([c] ++ s).
  rewrite safe_html_app, IH, safe_html_char. reflexivity.
Qed.

(** Every ampersand of the page text starts the entity of one special
    character of the input, and no angle bracket is left. *)
Lemma safe_html_counts (s : str) :
  count_occ ascii_dec (safe_html s) "&"%char = length (filter is_special s)
  /\ count_occ ascii_dec (safe_html s) "<"%char = 0
  /\ count_occ ascii_dec (safe_html s) ">"%char = 0.
Proof.
  rewrite safe_html_flat_map.
  induction s as [|c s (IH1 & IH2 & IH3)]; [now repeat split|].
  simpl flat_map. rewrite !count_occ_app, IH1, IH2, IH3.
  unfold html_entity, is_special. simpl filter.
  destruct (Ascii.eqb c "&") eqn:E1; [now repeat split|].
  destruct (Ascii.eqb c "<") eqn:E2; [now repeat split|].
  destruct (Ascii.eqb c ">") eqn:E3; [now repeat split|].
  apply Ascii.eqb_neq in E1, E2, E3. simpl.
  destruct (ascii_dec c "&"), (ascii_dec c "<"), (ascii_dec c ">");
    try congruence. now repeat split.
Qed.

(** Claim C8.  For every input string, [safe_html] is the concatenation of
    what the escaping makes of each character: ampersand, less-than and
    greater-than become their entity, every other character is kept.  Each
    character is escaped once, and the entities of the angle brackets are
    not escaped again: on the three characters together the page text has
    each entity once and no entity of an entity. *)
Theorem safe_html_escapes_once :
  (forall s : str, safe_html s = flat_map html_entity s)
  /\ safe_html (lit "<&>") = lit "&lt;&amp;&gt;"
  /\ Str.contains (lit "&amp;lt;") (safe_html (lit "<&>")) = false
  /\ Str.contains (lit "&amp;gt;") (safe_html (lit "<&>")) = false.
Proof.
  split; [exact safe_html_flat_map|]. repeat split; reflexivity.
Qed.

(** ** The trimming loop *)

Lemma total_words_cons (p : str) (l : list str) :
  total_words (p :: l) = Str.words p + total_words l.
Proof. reflexivity. Qed.

Lemma total_words_app (a b : list str) :
  total_words (a ++ b) = total_words a + total_words b.
Proof. induction a as [|p a IH]; simpl; [reflexivity|]. rewrite IH. lia. Qed.

(** The state of the loop after the paragraphs [paras]: it has added the
    first [k] of them, every one of them but the first of an empty buffer
    within the 580 words, and stopped at a paragraph that goes past them. *)
Lemma trim_loop_spec (paras sel : list str) (wcount : nat) :
  exists k,
    k <= length paras
    /\ trim_loop paras sel wcount = sel ++ firstn k paras
    /\ (sel = [] -> paras <> [] -> 1 <= k)
    /\ (forall j, j < k -> sel <> [] \/ 1 <= j ->
                  wcount + total_words (firstn (S j) paras) <= 580)
    /\ (k < length paras ->
        580 < wcount + total_words (firstn (S k) paras)).
Proof.
  revert sel wcount.
  induction paras as [|p rest IH]; intros sel wcount.
  - exists 0. simpl. rewrite app_nil_r. repeat split; try lia; congruence.
  - simpl trim_loop.
    destruct ((580 <? wcount + Str.words p) && negb (length sel =? 0)) eqn:E.
    + apply andb_true_iff in E. destruct E as [E1 E2].
      apply Nat.ltb_lt in E1. apply negb_true_iff, Nat.eqb_neq in E2.
      exists 0. simpl. rewrite app_nil_r. repeat split; try lia.
      intros ->. now simpl in E2.
    + destruct (IH (sel ++ [p]) (wcount + Str.words p))
        as (k & Hk & Heq & _ & Hin & Hout).
      exists (S k).
      change (firstn (S k) (p :: rest)) with (p :: firstn k rest).
      split; [simpl; lia|]. split; [|split; [intros; lia|split]].
      * rewrite Heq, <- app_assoc. reflexivity.
      * intros j Hj Hc.
        change (firstn (S j) (p :: rest)) with (p :: firstn j rest).
        rewrite total_words_cons. destruct j as [|j].
        -- simpl. apply andb_false_iff in E. destruct E as [E|E].
           ++ apply Nat.ltb_ge in E. lia.
           ++ apply negb_false_iff, Nat.eqb_eq in E.
              destruct Hc as [Hc|Hc]; [|lia].
              destruct sel; [congruence|discriminate].
        -- assert (H := Hin j ltac:(lia)
                          (or_introl (fun e => app_cons_not_nil _ _ _ (eq_sym e)))).
           lia.
      * intros Hlt. simpl length in Hlt. assert (H := Hout ltac:(lia)).
        change (firstn (S (S k)) (p :: rest)) with (p :: firstn (S k) rest).
        rewrite total_words_cons. lia.
Qed.

Lemma paragraphs_tight (content : str) :
  Forall (fun p => p <> [] /\ tight p) (paragraphs content).
Proof.
  unfold paragraphs. apply Forall_forall. intros p Hp.
  apply in_map_iff in Hp. destruct Hp as (q & <- & Hq).
  apply filter_In in Hq. destruct Hq as [_ Hq].
  split; [now apply nonempty_true | apply strip_tight].
Qed.

Lemma Forall_firstn {A} (P : A -> Prop) (k : nat) (l : list A) :
  Forall P l -> Forall P (firstn k l).
Proof.
  intros H. apply Forall_forall. intros x Hx.
  rewrite Forall_forall in H. apply H.
  rewrite <- (firstn_skipn k l). apply in_or_app. now left.
Qed.

(** [chosen] is the first [k] paragraphs joined by blank lines. *)
Lemma trimmed_spec (content : str) :
  exists k,
    k <= length (paragraphs content)
    /\ (paragraphs content <> [] -> 1 <= k)
    /\ trim_loop (paragraphs content) [] 0 = firstn k (paragraphs content)
    /\ trimmed content = Str.join blank_line (firstn k (paragraphs content)).
Proof.
  destruct (trim_loop_spec (paragraphs content) [] 0) as (k & Hk & Heq & H1 & _).
  exists k. simpl in Heq. repeat split; auto.
  unfold trimmed. rewrite Heq. apply tight_strip, join_tight.
  apply Forall_firstn, paragraphs_tight.
Qed.

(** ** The order of the tuples *)

Lemma SFcompare_key (x y : F64.float) :
  match SFcompare x y with
  | None => float_key x = None \/ float_key y = None
  | Some c =>
      exists kx ky,
        float_key x = Some kx /\ float_key y = Some ky
        /\ match c with
           | Lt => key_lt kx ky
           | Eq => kx = ky
           | Gt => key_lt ky kx
           end
  end.
Proof.
  destruct x as [sx|sx| |sx mx ex], y as [sy|sy| |sy my ey]; simpl;
    try (now left); try (now right);
    try (destruct sx); try (destruct sy); simpl;
    try (eexists; eexists; split; [reflexivity|split; [reflexivity|]];
         simpl; try reflexivity; lia).
  - eexists; eexists; split; [reflexivity|split; [reflexivity|]].
    destruct (Z.compare_spec ex ey) as [E|E|E]; simpl; try lia.
    change (Pos.compare_cont Eq mx my) with (Pos.compare mx my).
    destruct (Pos.compare_spec mx my) as [F|F|F]; simpl; subst; try lia.
    reflexivity.
  - eexists; eexists; split; [reflexivity|split; [reflexivity|]].
    destruct (Z.compare_spec ex ey) as [E|E|E]; simpl; try lia.
    change (Pos.compare_cont Eq mx my) with (Pos.compare mx my).
    destruct (Pos.compare_spec mx my) as [F|F|F]; simpl; subst; try lia.
    reflexivity.
Qed.

Ltac split_keys :=
  repeat match goal with
  | k : (Z * Z * Z)%type |- _ => destruct k as [[? ?] ?]
  end.

Lemma F64_ltb_key (x y : F64.float) :
  F64.ltb x y = true <->
  exists kx ky, float_key x = Some kx /\ float_key y = Some ky /\ key_lt kx ky.
Proof.
  unfold F64.ltb, SFltb. assert (H := SFcompare_key x y).
  destruct (SFcompare x y) as [[| |]|].
  - destruct H as (kx & ky & Hx & Hy & ->). split; [discriminate|].
    intros (kx' & ky' & Hx' & Hy' & Hlt). exfalso.
    rewrite Hx in Hx'. rewrite Hy in Hy'.
    injection Hx' as <-. injection Hy' as <-.
    split_keys. simpl in Hlt. lia.
  - destruct H as (kx & ky & Hx & Hy & Hlt). split; [|reflexivity].
    intros _. now exists kx, ky.
  - destruct H as (kx & ky & Hx & Hy & Hgt). split; [discriminate|].
    intros (kx' & ky' & Hx' & Hy' & Hlt). exfalso.
    rewrite Hx in Hx'. rewrite Hy in Hy'.
    injection Hx' as <-. injection Hy' as <-.
    split_keys. simpl in *. lia.
  - split; [discriminate|].
    intros (kx' & ky' & Hx' & Hy' & _). destruct H; congruence.
Qed.

Lemma F64_eqb_key (x y : F64.float) :
  F64.eqb x y = true <->
  exists k, float_key x = Some k /\ float_key y = Some k.
Proof.
  unfold F64.eqb, SFeqb. assert (H := SFcompare_key x y).
  destruct (SFcompare x y) as [[| |]|].
  - destruct H as (kx & ky & Hx & Hy & ->). split; [|reflexivity].
    intros _. now exists ky.
  - destruct H as (kx & ky & Hx & Hy & Hlt). split; [discriminate|].
    intros (k & Hx' & Hy'). exfalso. rewrite Hx in Hx'. rewrite Hy in Hy'.
    injection Hx' as <-. injection Hy' as E. subst ky.
    split_keys. simpl in Hlt. lia.
  - destruct H as (kx & ky & Hx & Hy & Hlt). split; [discriminate|].
    intros (k & Hx' & Hy'). exfalso. rewrite Hx in Hx'. rewrite Hy in Hy'.
    injection Hx' as <-. injection Hy' as E. subst ky.
    split_keys. simpl in Hlt. lia.
  - split; [discriminate|].
    intros (k & Hx' & Hy'). destruct H; congruence.
Qed.

Ltac key_facts :=
  repeat match goal with
  | H : F64.ltb _ _ = true |- _ =>
      apply F64_ltb_key in H; destruct H as (? & ? & ? & ? & ?)
  | H : F64.eqb _ _ = true |- _ =>
      apply F64_eqb_key in H; destruct H as (? & ? & ?)
  end;
  repeat match goal with
  | H1 : float_key ?x = Some ?a, H2 : float_key ?x = Some ?b |- _ =>
      assert (a = b) by congruence; subst; clear H2
  end.

Lemma not_true_false (b : bool) : (b = true -> False) -> b = false.
Proof. destruct b; intuition. Qed.

Lemma level_score : level score_eq score_lt.
Proof.
  unfold score_eq, score_lt.
  split; intros.
  - key_facts. apply F64_eqb_key. eauto.
  - key_facts. apply F64_eqb_key. eauto.
  - key_facts. apply F64_ltb_key. do 2 eexists. repeat split; eauto.
    split_keys.
    simpl in *. lia.
  - key_facts. apply F64_ltb_key. do 2 eexists. repeat split; eauto.
  - key_facts. apply F64_ltb_key. do 2 eexists. repeat split; eauto.
  - apply not_true_false. intros E. key_facts.
    split_keys.
    simpl in *. lia.
  - apply not_true_false. intros E. key_facts.
    split_keys.
    simpl in *. lia.
Qed.

Lemma level_idx : level idx_eq idx_lt.
Proof.
  unfold idx_eq, idx_lt.
  split; intros a b; [| intros c | intros c | intros c | intros c | |];
    rewrite ?Nat.eqb_eq, ?Nat.ltb_lt, ?Nat.eqb_neq, ?Nat.ltb_ge; lia.
Qed.

Lemma Str_eqb_eq (a b : str) : Str.eqb a b = true <-> a = b.
Proof. unfold Str.eqb. destruct (list_eq_dec ascii_dec a b); split; congruence. Qed.

Lemma Str_ltb_irrefl (a : str) : Str.ltb a a = false.
Proof.
  induction a as [|x a IH]; [reflexivity|]. simpl.
  now rewrite Nat.ltb_irrefl.
Qed.

Lemma Str_ltb_trans (a b c : str) :
  Str.ltb a b = true -> Str.ltb b c = true -> Str.ltb a c = true.
Proof.
  revert b c. induction a as [|x a IH]; intros [|y b] [|z c]; simpl;
    try congruence.
  destruct (Chr.code x <? Chr.code y) eqn:E1, (Chr.code y <? Chr.code x) eqn:E2,
           (Chr.code y <? Chr.code z) eqn:E3, (Chr.code z <? Chr.code y) eqn:E4,
           (Chr.code x <? Chr.code z) eqn:E5, (Chr.code z <? Chr.code x) eqn:E6;
    try congruence;
    repeat match goal with
    | H : (_ <? _) = true |- _ => apply Nat.ltb_lt in H
    | H : (_ <? _) = false |- _ => apply Nat.ltb_ge in H
    end; try lia.
  apply IH.
Qed.

Lemma Str_ltb_asym (a b : str) : Str.ltb a b = true -> Str.ltb b a = false.
Proof.
  intros H. apply not_true_false. intros H'.
  assert (E := Str_ltb_trans _ _ _ H H'). now rewrite Str_ltb_irrefl in E.
Qed.

Lemma level_str (f : scored_item -> str) : level (str_eq_on f) (str_lt_on f).
Proof.
  unfold str_eq_on, str_lt_on.
  split; intros;
    repeat match goal with
    | H : Str.eqb _ _ = true |- _ => apply Str_eqb_eq in H
    end.
  - apply Str_eqb_eq. congruence.
  - apply Str_eqb_eq. congruence.
  - eapply Str_ltb_trans; eauto.
  - congruence.
  - congruence.
  - apply not_true_false. intros E. apply Str_eqb_eq in E.
    rewrite E, Str_ltb_irrefl in H. discriminate.
  - now apply Str_ltb_asym.
Qed.

Section Chain.

Variable A : Type.
Variables eq lt rest : A -> A -> bool.
Hypothesis Hlevel : level eq lt.
Hypothesis rest_trans :
  forall a b c, rest a b = true -> rest b c = true -> rest a c = true.
Hypothesis rest_asym : forall a b, rest a b = true -> rest b a = false.

Lemma chain_trans (a b c : A) :
  chain eq lt rest a b = true -> chain eq lt rest b c = true ->
  chain eq lt rest a c = true.
Proof.
  destruct Hlevel. unfold chain.
  destruct (eq a b) eqn:E1, (eq b c) eqn:E2; simpl; intros H1 H2.
  - rewrite (lv_eq_trans0 _ _ _ E1 E2). simpl. eauto.
  - assert (L := lv_eq_lt0 _ _ _ E1 H2).
    rewrite (lv_lt_neq0 _ _ L). exact L.
  - assert (L := lv_lt_eq0 _ _ _ H1 E2).
    rewrite (lv_lt_neq0 _ _ L). exact L.
  - assert (L := lv_lt_trans0 _ _ _ H1 H2).
    rewrite (lv_lt_neq0 _ _ L). exact L.
Qed.

Lemma chain_asym (a b : A) :
  chain eq lt rest a b = true -> chain eq lt rest b a = false.
Proof.
  destruct Hlevel. unfold chain.
  destruct (eq a b) eqn:E1; simpl; intros H1.
  - rewrite (lv_eq_sym0 _ _ E1). simpl. auto.
  - destruct (eq b a) eqn:E2; simpl.
    + apply lv_eq_sym0 in E2. congruence.
    + auto.
Qed.

End Chain.

Lemma item_ltb_chain (a b : scored_item) :
  item_ltb a b =
  chain score_eq score_lt
    (chain idx_eq idx_lt
       (chain (str_eq_on item_title) (str_lt_on item_title)
          (chain (str_eq_on item_content) (str_lt_on item_content)
             (fun _ _ => false)))) a b.
Proof. reflexivity. Qed.

Lemma item_ltb_trans (a b c : scored_item) :
  item_ltb a b = true -> item_ltb b c = true -> item_ltb a c = true.
Proof.
  rewrite !item_ltb_chain.
  apply chain_trans; [apply level_score|].
  apply chain_trans; [apply level_idx|].
  apply chain_trans; [apply level_str|].
  apply chain_trans; [apply level_str|]. intros; discriminate.
Qed.

Lemma item_ltb_asym (a b : scored_item) :
  item_ltb a b = true -> item_ltb b a = false.
Proof.
  rewrite !item_ltb_chain.
  apply chain_asym; [apply level_score|].
  apply chain_asym; [apply level_idx|].
  apply chain_asym; [apply level_str|].
  apply chain_asym; [apply level_str|]. intros; discriminate.
Qed.

(** ** The scoring loop *)

Lemma score_loop_eq (chunks : list section) :
  forall idx scored,
    score_loop idx chunks scored = scored ++ score_from idx chunks.
Proof.
  induction chunks as [|[t c] rest IH]; intros idx scored; simpl.
  - now rewrite app_nil_r.
  - rewrite IH, <- app_assoc. reflexivity.
Qed.

Lemma score_from_nth (chunks : list section) :
  forall idx i t c,
    nth_error chunks i = Some (t, c) ->
    nth_error (score_from idx chunks) i
    = Some (chunk_score (idx + i) t c, idx + i, t, c).
Proof.
  induction chunks as [|[t' c'] rest IH]; intros idx [|i] t c H; simpl in *;
    try discriminate.
  - injection H as -> ->. now rewrite Nat.add_0_r.
  - rewrite (IH (S idx) i t c H).
    replace (idx + S i) with (S idx + i) by lia. reflexivity.
Qed.

Lemma score_from_idx (chunks : list section) :
  forall idx, map item_idx (score_from idx chunks) = seq idx (length chunks).
Proof.
  induction chunks as [|[t c] rest IH]; intros idx; simpl; [reflexivity|].
  now rewrite IH.
Qed.

Lemma score_from_In (chunks : list section) :
  forall idx x,
    In x (score_from idx chunks) ->
    idx <= item_idx x
    /\ nth_error chunks (item_idx x - idx) = Some (item_title x, item_content x)
    /\ item_score x = chunk_score (item_idx x) (item_title x) (item_content x).
Proof.
  induction chunks as [|[t c] rest IH]; intros idx x H; simpl in H; [easy|].
  destruct H as [<-|H].
  - unfold item_idx, item_title, item_content, item_score. simpl.
    rewrite Nat.sub_diag. auto.
  - destruct (IH _ _ H) as (H1 & H2 & H3). split; [lia|]. split; [|exact H3].
    replace (item_idx x - idx) with (S (item_idx x - S idx)) by lia.
    exact H2.
Qed.

(** ** The sort *)

Lemma insert_sorted_perm (x : scored_item) (l : list scored_item) :
  Permutation (insert_sorted x l) (x :: l).
Proof.
  induction l as [|y l IH]; simpl; [reflexivity|].
  destruct (item_ltb x y); [reflexivity|].
  rewrite IH. apply perm_swap.
Qed.

Lemma insert_sorted_ascending (x : scored_item) (l : list scored_item) :
  ascending l -> ascending (insert_sorted x l).
Proof.
  unfold ascending.
  induction 1 as [|y l Hl IH Hy]; simpl.
  - constructor; constructor.
  - destruct (item_ltb x y) eqn:E.
    + constructor; [now constructor|].
      constructor; [now apply item_ltb_asym|].
      rewrite Forall_forall in *. intros u Hu.
      apply not_true_false. intros Hux.
      assert (Huy := item_ltb_trans _ _ _ Hux E).
      rewrite (Hy u Hu) in Huy. discriminate.
    + constructor; [exact IH|].
      rewrite Forall_forall in *. intros u Hu.
      apply (Permutation_in _ (insert_sorted_perm x l)) in Hu.
      destruct Hu as [<-|Hu]; auto.
  Qed.

Lemma list_sort_from_perm (l acc : list scored_item) :
  Permutation (fold_left (fun a x => insert_sorted x a) l acc) (l ++ acc).
Proof.
  revert acc. induction l as [|x l IH]; intros acc; simpl; [reflexivity|].
  rewrite IH, insert_sorted_perm. symmetry. apply Permutation_middle.
Qed.

Lemma list_sort_from_ascending (l acc : list scored_item) :
  ascending acc -> ascending (fold_left (fun a x => insert_sorted x a) l acc).
Proof.
  revert acc. induction l as [|x l IH]; intros acc H; simpl; [exact H|].
  apply IH, insert_sorted_ascending, H.
Qed.

Lemma list_sort_perm (l : list scored_item) : Permutation (list_sort l) l.
Proof. unfold list_sort. rewrite list_sort_from_perm. now rewrite app_nil_r. Qed.

Lemma list_sort_ascending (l : list scored_item) : ascending (list_sort l).
Proof. apply list_sort_from_ascending. constructor. Qed.

Lemma StronglySorted_snoc {A} (R : A -> A -> Prop) (l : list A) (x : A) :
  StronglySorted R l -> Forall (fun y => R y x) l -> StronglySorted R (l ++ [x]).
Proof.
  induction 1 as [|y l Hl IH Hy]; intros Hx; simpl.
  - constructor; constructor.
  - inversion Hx; subst. constructor; [now apply IH|].
    apply Forall_app. split; [exact Hy|]. now constructor.
Qed.

Lemma StronglySorted_rev {A} (R : A -> A -> Prop) (l : list A) :
  StronglySorted R l -> StronglySorted (fun a b => R b a) (rev l).
Proof.
  induction 1 as [|y l Hl IH Hy]; simpl; [constructor|].
  apply StronglySorted_snoc; [exact IH|].
  apply Forall_forall. intros u Hu. apply in_rev in Hu.
  rewrite Forall_forall in Hy. now apply Hy.
Qed.

Lemma list_sort_reverse_perm (l : list scored_item) :
  Permutation (list_sort_reverse l) l.
Proof.
  unfold list_sort_reverse.
  rewrite <- Permutation_rev, list_sort_perm. symmetry. apply Permutation_rev.
Qed.

Lemma list_sort_reverse_descending (l : list scored_item) :
  descending (list_sort_reverse l).
Proof.
  unfold descending, list_sort_reverse.
  apply (StronglySorted_rev (list_sort_ascending (rev l))).
Qed.

Lemma ranked_perm (chunks : list section) :
  Permutation (ranked chunks) (score_from 0 chunks).
Proof.
  unfold ranked. rewrite list_sort_reverse_perm, score_loop_eq. reflexivity.
Qed.

Lemma ranked_descending (chunks : list section) : descending (ranked chunks).
Proof. apply list_sort_reverse_descending. Qed.

Lemma StronglySorted_split {A} (R : A -> A -> Prop) (pre mid post : list A)
      (x y : A) :
  StronglySorted R (pre ++ x :: mid ++ y :: post) -> R x y.
Proof.
  induction pre as [|p pre IH]; simpl; intros H; inversion H; subst; auto.
  rewrite Forall_forall in *. apply H3. apply in_or_app. right. now left.
Qed.

Lemma item_ltb_score (a b : scored_item) :
  item_ltb a b = false -> F64.ltb (item_score a) (item_score b) = false.
Proof.
  rewrite item_ltb_chain. unfold chain at 1.
  fold (score_lt a b). destruct (score_eq a b) eqn:E; simpl; [intros _|auto].
  apply not_true_false. intros L.
  rewrite (lv_lt_neq level_score _ _ L) in E. discriminate.
Qed.

(** The candidates are tried from the greatest score down. *)
Lemma ranked_score_descending (chunks : list section) :
  StronglySorted
    (fun a b => F64.ltb (item_score a) (item_score b) = false) (ranked chunks).
Proof.
  assert (H := ranked_descending chunks). unfold descending in H.
  induction H as [|x l Hl IH Hx]; constructor; [exact IH|].
  eapply Forall_impl; [|exact Hx]. intros b. apply item_ltb_score.
Qed.

Lemma ranked_idx_NoDup (chunks : list section) :
  NoDup (map item_idx (ranked chunks)).
Proof.
  eapply Permutation_NoDup.
  - symmetry. apply Permutation_map, ranked_perm.
  - rewrite score_from_idx. apply seq_NoDup.
Qed.

(** Of two candidates of equal score the one of greater index is tried
    first. *)
Lemma ranked_ties_later_first (chunks : list section)
      (pre mid post : list scored_item) (x y : scored_item) :
  ranked chunks = pre ++ x :: mid ++ y :: post ->
  F64.eqb (item_score x) (item_score y) = true ->
  item_idx y < item_idx x.
Proof.
  intros Hr He.
  assert (Hd := ranked_descending chunks). unfold descending in Hd.
  rewrite Hr in Hd. apply StronglySorted_split in Hd.
  assert (Hn := ranked_idx_NoDup chunks). rewrite Hr in Hn.
  rewrite map_app in Hn. apply NoDup_app_remove_l in Hn.
  simpl in Hn. inversion Hn as [|? ? Hnotin _]; subst.
  assert (Hneq : item_idx x <> item_idx y).
  { intros E. apply Hnotin. rewrite map_app. apply in_or_app. right.
    left. now symmetry. }
  rewrite item_ltb_chain in Hd. unfold chain at 1 in Hd.
  fold (score_eq x y) in He. rewrite He in Hd. simpl in Hd.
  unfold chain at 1 in Hd. unfold idx_eq, idx_lt in Hd.
  apply Nat.eqb_neq in Hneq. rewrite Hneq in Hd. simpl in Hd.
  apply Nat.ltb_ge in Hd. apply Nat.eqb_neq in Hneq. lia.
Qed.

(** ** The loop over the candidates *)

Lemma select_loop_cons (x : scored_item) (l : list scored_item) :
  select_loop (x :: l)
  = if acceptable x then Some (item_title x, trimmed (item_content x))
    else select_loop l.
Proof. reflexivity. Qed.

Lemma select_loop_first (pre post : list scored_item) (x : scored_item) :
  Forall (fun y => acceptable y = false) pre ->
  acceptable x = true ->
  select_loop (pre ++ x :: post) = Some (item_title x, trimmed (item_content x)).
Proof.
  induction 1 as [|y pre Hy _ IH]; intros Hx.
  - simpl app. now rewrite select_loop_cons, Hx.
  - simpl app. rewrite select_loop_cons, Hy. now apply IH.
Qed.

Lemma select_loop_none (l : list scored_item) :
  Forall (fun y => acceptable y = false) l -> select_loop l = None.
Proof.
  induction 1 as [|y l Hy _ IH]; [reflexivity|].
  now rewrite select_loop_cons, Hy.
Qed.

Lemma select_loop_some (l : list scored_item) (r : str * str) :
  select_loop l = Some r ->
  exists pre x post,
    l = pre ++ x :: post
    /\ Forall (fun y => acceptable y = false) pre
    /\ acceptable x = true
    /\ r = (item_title x, trimmed (item_content x)).
Proof.
  induction l as [|y l IH]; [discriminate|].
  rewrite select_loop_cons. destruct (acceptable y) eqn:E.
  - intros [= <-]. exists [], y, l. repeat split; auto.
  - intros H. destruct (IH H) as (pre & x & post & -> & Hp & Hx & ->).
    exists (y :: pre), x, post. repeat split; auto.
Qed.

(** The paragraphs of the code are those of the specification. *)
Lemma paragraphs_spec (content : str) :
  paragraphs content = spec_paragraphs content.
Proof.
  unfold paragraphs, spec_paragraphs.
  induction (Str.split_on Chr.nl content) as [|l ls IH]; [reflexivity|].
  cbn [map filter]. destruct (Str.nonempty (Str.strip l)); cbn [map];
    now rewrite IH.
Qed.

(** With a buffer that is not empty, the loop adds the paragraphs the
    budget admits. *)
Lemma trim_loop_within_budget (paras sel : list str) (wcount : nat) :
  sel <> [] ->
  trim_loop paras sel wcount = sel ++ within_budget wcount paras.
Proof.
  revert sel wcount.
  induction paras as [|p rest IH]; intros sel wcount Hsel.
  - simpl. now rewrite app_nil_r.
  - cbn [trim_loop within_budget].
    assert (E : (length sel =? 0) = false).
    { apply Nat.eqb_neq. destruct sel; [congruence|discriminate]. }
    rewrite E. cbn [negb]. rewrite andb_true_r.
    destruct (wcount + Str.words p <=? 580) eqn:L.
    + apply Nat.leb_le in L.
      assert (G : (580 <? wcount + Str.words p) = false)
        by (apply Nat.ltb_ge; exact L).
      rewrite G, IH, <- app_assoc; [reflexivity|].
      intros N. now apply app_eq_nil in N as [_ N].
    + apply Nat.leb_gt in L.
      assert (G : (580 <? wcount + Str.words p) = true)
        by (apply Nat.ltb_lt; exact L).
      rewrite G. now rewrite app_nil_r.
Qed.

(** [chosen] is what the greedy trimming rule yields. *)
Lemma trimmed_greedy (content : str) : trimmed content = greedy_trim content.
Proof.
  destruct (trimmed_spec content) as (k & _ & _ & Hk & Ht).
  rewrite Ht, <- Hk. unfold greedy_trim. rewrite <- paragraphs_spec.
  destruct (paragraphs content) as [|p rest]; [reflexivity|].
  cbn [trim_loop length Nat.eqb negb]. rewrite andb_false_r.
  rewrite trim_loop_within_budget by discriminate. reflexivity.
Qed.

(** Claim C1.  For a list of sections that is not empty, the candidates are
    the scored sections in an order where no later candidate has a greater
    score.  If a candidate yields at least 220 words under the greedy
    trimming rule (its first paragraph and the paragraphs after it that
    580 words admit, joined by blank lines) and none before it does, the
    function returns its title and that trimmed content; if no candidate
    does, it returns the title of the first section and the first 1200
    characters of its content. *)
Theorem choose_important_section_first_acceptable (chunks : list section) :
  chunks <> [] ->
  Permutation (ranked chunks) (score_from 0 chunks)
  /\ StronglySorted
       (fun a b => F64.ltb (item_score a) (item_score b) = false)
       (ranked chunks)
  /\ (forall pre x post,
         ranked chunks = pre ++ x :: post ->
         Forall (fun y => Str.words (greedy_trim (item_content y)) < 220) pre ->
         220 <= Str.words (greedy_trim (item_content x)) ->
         choose_important_section chunks
         = Ok (item_title x, greedy_trim (item_content x)))
  /\ (Forall (fun y => Str.words (greedy_trim (item_content y)) < 220)
             (ranked chunks) ->
      choose_important_section chunks
      = Ok (fst (hd ([], []) chunks), firstn 1200 (snd (hd ([], []) chunks)))).
Proof.
  intros Hne. split; [apply ranked_perm|].
  split; [apply ranked_score_descending|]. split.
  - intros pre x post Hr Hpre Hx. unfold choose_important_section.
    rewrite Hr, select_loop_first; [now rewrite trimmed_greedy| |].
    + eapply Forall_impl; [|exact Hpre]. intros y Hy.
      unfold acceptable. rewrite trimmed_greedy. now apply Nat.leb_gt.
    + unfold acceptable. rewrite trimmed_greedy. now apply Nat.leb_le.
  - intros Hall. unfold choose_important_section.
    rewrite select_loop_none.
    + destruct chunks as [|[t c] rest]; [congruence|reflexivity].
    + eapply Forall_impl; [|exact Hall]. intros y Hy.
      unfold acceptable. rewrite trimmed_greedy. now apply Nat.leb_gt.
Qed.

(** On [skip_chunks] the candidate of highest score, the preface, has two
    words, and the function returns the first five of the seven lines of
    the long section, joined by blank lines; a single short section is
    returned as it is. *)
Lemma choose_important_section_first_acceptable_witness :
  skip_chunks <> []
  /\ map item_title (ranked skip_chunks)
     = [lit "Preface, foreword, introduction"; lit "Long"]
  /\ choose_important_section skip_chunks
     = Ok (lit "Long", Str.join blank_line (repeat (word_line 100) 5))
  /\ choose_important_section [(lit "Preface", lit "On discipline.")]
     = Ok (lit "Preface", lit "On discipline.").
Proof.
  assert (Hne : skip_chunks <> []) by discriminate.
  split; [exact Hne|]. split; [vm_compute; reflexivity|]. split.
  - destruct (@choose_important_section_first_acceptable skip_chunks Hne)
      as (_ & _ & H & _).
    pose (d := (F64.f0_0, 0, @nil ascii, @nil ascii) : scored_item).
    pose (x := nth 0 (ranked skip_chunks) d).
    pose (y := nth 1 (ranked skip_chunks) d).
    assert (E : ranked skip_chunks = [x] ++ y :: [])
      by (vm_compute; reflexivity).
    rewrite (H [x] y [] E).
    + vm_compute. reflexivity.
    + constructor; [|constructor]. apply Nat.ltb_lt. vm_compute. reflexivity.
    + apply Nat.leb_le. vm_compute. reflexivity.
  - destruct (@choose_important_section_first_acceptable
                [(lit "Preface", lit "On discipline.")]) as (_ & _ & _ & H);
      [discriminate|].
    apply H.
    assert (E : forallb (fun y => Str.words (greedy_trim (item_content y)) <? 220)
                        (ranked [(lit "Preface", lit "On discipline.")]) = true)
      by (vm_compute; reflexivity).
    rewrite forallb_forall in E. apply Forall_forall. intros y Hy.
    apply Nat.ltb_lt. now apply E.
Defined.

Lemma firstn_succ_nth {A} (d : A) (l : list A) :
  forall j, j < length l -> firstn (S j) l = firstn j l ++ [nth j l d].
Proof.
  induction l as [|x l IH]; intros j Hj; simpl in Hj; [lia|].
  destruct j as [|j]; [reflexivity|].
  change (firstn (S (S j)) (x :: l)) with (x :: firstn (S j) l).
  rewrite IH by lia. reflexivity.
Qed.

(** The first paragraph is kept even when it alone goes past the 580
    words. *)
Lemma trim_keeps_long_first_paragraph :
  Str.words (word_line 600) = 600
  /\ trim_loop long_first [] 0 = [word_line 600].
Proof. split; vm_compute; reflexivity. Qed.

(** Claim C4.  For a content with at least one paragraph, the trimming
    loop keeps the first [k] paragraphs for some [k >= 1], so the first
    paragraph is always kept, whatever its length; every paragraph it adds
    after the first leaves the count within 580 words, and the paragraph it
    stops at, if any, would push the count past 580. *)
Theorem trim_keeps_first_paragraph_within_budget
        (content p : str) (rest : list str) :
  paragraphs content = p :: rest ->
  exists k,
    1 <= k <= length (paragraphs content)
    /\ trim_loop (paragraphs content) [] 0 = firstn k (paragraphs content)
    /\ hd_error (trim_loop (paragraphs content) [] 0) = Some p
    /\ (forall j, 1 <= j < k ->
          total_words (firstn j (paragraphs content))
          + Str.words (nth j (paragraphs content) []) <= 580)
    /\ (k < length (paragraphs content) ->
        580 < total_words (firstn k (paragraphs content))
              + Str.words (nth k (paragraphs content) [])).
Proof.
  intros Hp.
  destruct (trim_loop_spec (paragraphs content) [] 0)
    as (k & Hk & Heq & H1 & Hin & Hout).
  simpl in Heq.
  assert (Hk1 : 1 <= k) by (apply H1; [reflexivity|rewrite Hp; discriminate]).
  assert (Hsplit : forall j, j < length (paragraphs content) ->
            total_words (firstn (S j) (paragraphs content))
            = total_words (firstn j (paragraphs content))
              + Str.words (nth j (paragraphs content) [])).
  { intros j Hj.
    rewrite (@firstn_succ_nth str [] (paragraphs content) j Hj).
    rewrite total_words_app. simpl. lia. }
  exists k. split; [lia|]. split; [exact Heq|]. split; [|split].
  - rewrite Heq, Hp. destruct k; [lia|reflexivity].
  - intros j Hj. rewrite <- Hsplit by lia.
    apply (Hin j); [lia|right; lia].
  - intros Hlt. rewrite <- Hsplit by lia. now apply Hout.
Qed.

Lemma trim_keeps_first_paragraph_within_budget_witness :
  paragraphs (lit "One." ++ [Chr.nl] ++ lit " Two. ") = [lit "One."; lit "Two."]
  /\ hd_error (trim_loop (paragraphs (lit "One." ++ [Chr.nl] ++ lit " Two. ")) [] 0)
     = Some (lit "One.").
Proof.
  split; [reflexivity|].
  destruct (@trim_keeps_first_paragraph_within_budget
              (lit "One." ++ [Chr.nl] ++ lit " Two. ") (lit "One.") [lit "Two."]
              eq_refl) as (k & _ & _ & H & _).
  exact H.
Defined.

(** Claim C10.  When the loop over the candidates returns, the function
    returns the same pair, whose content is the first [k] paragraphs of the
    content of one of the sections, for some [k >= 1], in their order and
    joined by blank lines; the paragraphs are the lines of the content that
    are not blank, each without whitespace at its ends. *)
Theorem nonfallback_content_is_paragraph_prefix
        (chunks : list section) (title chosen : str) :
  select_loop (ranked chunks) = Some (title, chosen) ->
  choose_important_section chunks = Ok (title, chosen)
  /\ exists i content k,
       nth_error chunks i = Some (title, content)
       /\ Forall (fun p => p <> [] /\ Str.strip p = p) (paragraphs content)
       /\ 1 <= k <= length (paragraphs content)
       /\ chosen = Str.join blank_line (firstn k (paragraphs content)).
Proof.
  intros H. split; [unfold choose_important_section; now rewrite H|].
  apply select_loop_some in H.
  destruct H as (pre & x & post & Hr & _ & Hx & [= -> ->]).
  assert (Hin : In x (score_from 0 chunks)).
  { apply (Permutation_in _ (ranked_perm chunks)). rewrite Hr.
    apply in_or_app. right. now left. }
  apply score_from_In in Hin. destruct Hin as (_ & Hn & _).
  destruct (trimmed_spec (item_content x)) as (k & Hk & Hk1 & _ & Ht).
  exists (item_idx x - 0), (item_content x), k.
  split; [exact Hn|]. split; [|split; [|exact Ht]].
  - eapply Forall_impl; [|apply paragraphs_tight].
    intros p [Hp1 Hp2]. split; [exact Hp1|now apply tight_strip].
  - split; [|exact Hk]. apply Hk1. intros E.
    unfold acceptable in Hx. rewrite Ht, E in Hx.
    destruct k; discriminate.
Qed.

Lemma nonfallback_content_is_paragraph_prefix_witness :
  select_loop (ranked tie_chunks)
  = Some (lit "B", Str.join blank_line (repeat (word_line 103) 5))
  /\ choose_important_section tie_chunks
     = Ok (lit "B", Str.join blank_line (repeat (word_line 103) 5)).
Proof.
  assert (H : select_loop (ranked tie_chunks)
              = Some (lit "B", Str.join blank_line (repeat (word_line 103) 5)))
    by (vm_compute; reflexivity).
  split; [exact H|].
  exact (proj1 (@nonfallback_content_is_paragraph_prefix
                  tie_chunks (lit "B")
                  (Str.join blank_line (repeat (word_line 103) 5)) H)).
Defined.

(** ** The score *)

(** The literals are the floats nearest to the decimal numbers. *)
Lemma literals_nearest :
  F64.f1_0 = F64.of_Z 1
  /\ F64.f0_0 = F64.of_Z 0
  /\ F64.f0_5 = F64.div (F64.of_Z 1) (F64.of_Z 2)
  /\ F64.f0_7 = F64.div (F64.of_Z 7) (F64.of_Z 10)
  /\ F64.f0_03 = F64.div (F64.of_Z 3) (F64.of_Z 100).
Proof. repeat split; vm_compute; reflexivity. Qed.

Lemma F64_mul_comm (x y : F64.float) : F64.mul x y = F64.mul y x.
Proof.
  unfold F64.mul.
  destruct x as [sx|sx| |sx mx ex], y as [sy|sy| |sy my ey]; simpl;
    try reflexivity; try (now rewrite xorb_comm).
  now rewrite xorb_comm, Pos.mul_comm, Z.add_comm.
Qed.

Lemma prefixb_lower (kw s : str) :
  Forall (fun c => Chr.lower c = c) kw ->
  Str.prefixb kw (Str.lower s) = Str.prefixb_ci kw s.
Proof.
  intros H. revert s. induction H as [|x kw Hx _ IH]; intros [|y s]; simpl;
    try reflexivity.
  rewrite IH. unfold Chr.eqb_ci. now rewrite Hx.
Qed.

Lemma contains_lower (kw s : str) :
  Forall (fun c => Chr.lower c = c) kw ->
  Str.contains kw (Str.lower s) = occurs_ci kw s.
Proof.
  intros H. induction s as [|y s IH].
  - simpl. now rewrite <- (prefixb_lower [] H).
  - change (Str.contains kw (Str.lower (y :: s)))
      with (Str.prefixb kw (Str.lower (y :: s)) || Str.contains kw (Str.lower s)).
    now rewrite IH, (prefixb_lower (y :: s) H).
Qed.

Lemma KEYWORDS_lower :
  Forall (fun kw => Forall (fun c => Chr.lower c = c) kw) KEYWORDS.
Proof.
  assert (H : forallb (fun kw => forallb (fun c => Ascii.eqb (Chr.lower c) c) kw)
                      KEYWORDS = true) by (vm_compute; reflexivity).
  rewrite forallb_forall in H. apply Forall_forall. intros kw Hkw.
  specialize (H kw Hkw). rewrite forallb_forall in H.
  apply Forall_forall. intros c Hc. now apply Ascii.eqb_eq, H.
Qed.

Lemma kw_loop_eq (t : str) (kws : list str) :
  Forall (fun kw => Forall (fun c => Chr.lower c = c) kw) kws ->
  forall acc n,
    acc = times_0_7 n ->
    fold_left (kw_step (Str.lower t)) kws acc
    = times_0_7 (n + length (filter (fun kw => occurs_ci kw t) kws)).
Proof.
  induction 1 as [|kw kws Hkw _ IH]; intros acc n ->; simpl.
  - now rewrite Nat.add_0_r.
  - unfold kw_step at 2. rewrite (contains_lower t Hkw).
    destruct (occurs_ci kw t); simpl.
    + rewrite (IH _ (S n)) by reflexivity. f_equal. lia.
    + now apply IH.
Qed.

Lemma chunk_score_spec (i : nat) (t c : str) :
  chunk_score i t c = spec_score i t c.
Proof.
  unfold chunk_score, spec_score. f_equal; [f_equal|].
  - unfold keyword_bonus, keyword_hits.
    now rewrite (@kw_loop_eq _ KEYWORDS KEYWORDS_lower F64.f0_0 0 eq_refl).
  - unfold position_bonus. now rewrite F64_mul_comm.
Qed.

(** Claim C3.  The item the scoring loop makes of the section at index [i],
    of title [t] and content [c], has the score length-fit plus keyword
    bonus plus position bonus: 1.0 less the shortfall below 220 words or the
    overage above 900 words as a fraction of the threshold, 0.7 for each
    keyword that occurs, in any case, in the title, a line break and the
    first 300 characters of the content, and the greater of 0 and
    0.5 - 0.03 * i, all in binary64 arithmetic. *)
Theorem score_is_length_keyword_position
        (chunks : list section) (i : nat) (t c : str) :
  nth_error chunks i = Some (t, c) ->
  nth_error (score_loop 0 chunks []) i
  = Some (F64.add (F64.add (length_fit (Str.words c)) (keyword_bonus t c))
                  (position_bonus i),
          i, t, c).
Proof.
  intros H. rewrite score_loop_eq. simpl app.
  rewrite (score_from_nth chunks 0 i H). simpl plus.
  now rewrite chunk_score_spec.
Qed.

Lemma score_is_length_keyword_position_witness :
  nth_error [(lit "Preface", lit "On discipline and habit.")] 0
  = Some (lit "Preface", lit "On discipline and habit.")
  /\ nth_error (score_loop 0 [(lit "Preface", lit "On discipline and habit.")] []) 0
     = Some (F64.add (F64.add (length_fit 4) (times_0_7 3)) (position_bonus 0),
             0, lit "Preface", lit "On discipline and habit.").
Proof.
  split; [reflexivity|].
  exact (@score_is_length_keyword_position
           [(lit "Preface", lit "On discipline and habit.")] 0
           (lit "Preface") (lit "On discipline and habit.") eq_refl).
Defined.

(** Claim C2, on the code.  On two sections whose scores are equal, nine
    lines of 106 words under the title A and nine lines of 103 words under
    the title B, the later section is ranked first and, as both clear 220
    words, it is the one returned. *)
Theorem tie_ranks_later_section_first :
  map (fun x => (item_idx x, item_score x)) (score_loop 0 tie_chunks [])
  = [(0, S754_finite false 6485183463413514 (-52));
     (1, S754_finite false 6485183463413514 (-52))]
  /\ map item_idx (ranked tie_chunks) = [1; 0]
  /\ forallb acceptable (ranked tie_chunks) = true
  /\ choose_important_section tie_chunks
     = Ok (lit "B", Str.join blank_line (repeat (word_line 103) 5)).
Proof. repeat split; vm_compute; reflexivity. Qed.

(** ** The markers *)

Lemma find_some (pat s : str) (j : nat) :
  Str.find pat s = Some j ->
  Str.prefixb pat (skipn j s) = true
  /\ forall i, i < j -> Str.prefixb pat (skipn i s) = false.
Proof.
  revert j. induction s as [|c s IH]; intros j; simpl.
  - destruct (Str.prefixb pat []) eqn:E; [|discriminate].
    intros [= <-]. split; [exact E|]. intros i Hi. lia.
  - destruct (Str.prefixb pat (c :: s)) eqn:E.
    + intros [= <-]. split; [exact E|]. intros i Hi. lia.
    + destruct (Str.find pat s) as [k|]; simpl; [|discriminate].
      intros [= <-]. destruct (IH k eq_refl) as [H1 H2].
      split; [exact H1|]. intros [|i] Hi; [exact E|].
      simpl. apply H2. lia.
Qed.

Lemma find_none (pat s : str) :
  Str.find pat s = None -> forall i, Str.prefixb pat (skipn i s) = false.
Proof.
  induction s as [|c s IH]; simpl.
  - destruct (Str.prefixb pat []) eqn:E; [discriminate|].
    intros _ i. now rewrite skipn_nil.
  - destruct (Str.prefixb pat (c :: s)) eqn:E; [discriminate|].
    destruct (Str.find pat s) as [k|]; simpl; [discriminate|].
    intros _ [|i]; [exact E|]. simpl. now apply IH.
Qed.

Lemma skipn_skipn_add {A} (a b : nat) (l : list A) :
  skipn a (skipn b l) = skipn (b + a) l.
Proof.
  revert l. induction b as [|b IH]; intros l; simpl; [reflexivity|].
  destruct l; [now rewrite skipn_nil|]. apply IH.
Qed.

(** What the search decides at the head of [s]. *)
Lemma search_here (kw s : str) :
  match (if Str.prefixb_ci kw s
         then Str.find Re.stars (skipn (length kw) s) else None) with
  | Some j => marker_span kw s 0 (length kw + j + 3)
  | None => ~ marker_from kw s 0
  end.
Proof.
  destruct (Str.prefixb_ci kw s) eqn:E.
  - destruct (Str.find Re.stars (skipn (length kw) s)) as [j|] eqn:F.
    + apply find_some in F. destruct F as [F1 F2].
      rewrite skipn_skipn_add in F1.
      split; [exact E|]. split; [lia|]. split.
      * unfold stars_at. now replace (length kw + j + 3 - 3) with (length kw + j) by lia.
      * intros i Hi. unfold stars_at.
        specialize (F2 (i - length kw) ltac:(lia)).
        rewrite skipn_skipn_add in F2.
        replace (length kw + (i - length kw)) with i in F2 by lia.
        now rewrite F2.
    + intros [_ (j & Hj & Hs)]. unfold stars_at in Hs.
      assert (F' := find_none _ _ F (j - length kw)).
      rewrite skipn_skipn_add in F'.
      replace (length kw + (j - length kw)) with j in F' by lia.
      congruence.
  - intros [H _]. simpl in H. congruence.
Qed.

Lemma marker_span_shift (kw s : str) (c : ascii) (p q : nat) :
  marker_span kw s p q -> marker_span kw (c :: s) (S p) (S q).
Proof.
  intros (H1 & H2 & H3 & H4). unfold stars_at in *.
  split; [exact H1|]. split; [lia|]. split.
  - replace (S q - 3) with (S (q - 3)) by lia. exact H3.
  - intros [|j] Hj; [lia|]. simpl. apply H4. lia.
Qed.

Lemma marker_from_shift (kw s : str) (c : ascii) (p : nat) :
  marker_from kw (c :: s) (S p) -> marker_from kw s p.
Proof.
  intros (H1 & j & Hj & Hs). split; [exact H1|].
  destruct j as [|j]; [lia|]. exists j. split; [lia|exact Hs].
Qed.

Lemma search_marker_from (kw s : str) :
  forall pos,
    match Re.search_marker kw pos s with
    | Some (p, q) =>
        pos <= p
        /\ marker_span kw s (p - pos) (q - pos)
        /\ forall p', p' < p - pos -> ~ marker_from kw s p'
    | None => forall p, ~ marker_from kw s p
    end.
Proof.
  induction s as [|c s IH]; intros pos.
  - assert (E : Re.search_marker kw pos [] = None).
    { simpl. destruct (Str.prefixb_ci kw []); [|reflexivity].
      now rewrite skipn_nil. }
    rewrite E. intros p (_ & j & _ & Hs). unfold stars_at in Hs.
    rewrite skipn_nil in Hs. discriminate.
  - assert (H := search_here kw (c :: s)).
    change (Re.search_marker kw pos (c :: s))
      with (match (if Str.prefixb_ci kw (c :: s)
                   then Str.find Re.stars (skipn (length kw) (c :: s))
                   else None) with
            | Some j => Some (pos, pos + length kw + j + 3)
            | None => Re.search_marker kw (S pos) s
            end).
    destruct (if Str.prefixb_ci kw (c :: s) then _ else None) as [j|].
    + split; [lia|]. rewrite Nat.sub_diag.
      replace (pos + length kw + j + 3 - pos) with (length kw + j + 3) by lia.
      split; [exact H|]. intros p' Hp'. lia.
    + specialize (IH (S pos)).
      destruct (Re.search_marker kw (S pos) s) as [[p q]|].
      * destruct IH as (Hp & Hspan & Hleft).
        assert (Hq : 3 <= q - S pos) by (destruct Hspan as (_ & ? & _); lia).
        split; [lia|]. split.
        -- replace (p - pos) with (S (p - S pos)) by lia.
           replace (q - pos) with (S (q - S pos)) by lia.
           now apply marker_span_shift.
        -- intros [|p'] Hp'; [exact H|].
           intros Hm. apply marker_from_shift in Hm.
           apply (Hleft p'); [lia|exact Hm].
      * intros [|p]; [exact H|].
        intros Hm. apply marker_from_shift in Hm. now apply (IH p).
Qed.

Lemma search_marker_found (kw txt : str) :
  marker_found kw txt (Re.search_marker kw 0 txt).
Proof.
  assert (H := search_marker_from kw txt 0). unfold marker_found.
  destruct (Re.search_marker kw 0 txt) as [[p q]|]; [|exact H].
  rewrite !Nat.sub_0_r in H. destruct H as (_ & H1 & H2). now split.
Qed.

Lemma remove_cr_eq (s : str) :
  filter (fun c => negb (Chr.is_cr c)) s = remove_cr s.
Proof.
  unfold remove_cr. apply filter_ext. intros c. f_equal.
  unfold Chr.is_cr, Chr.code, Chr.cr.
  destruct (Ascii.eqb c (ascii_of_nat 13)) eqn:E.
  - apply Ascii.eqb_eq in E. now subst.
  - apply Nat.eqb_neq. intros F. apply Ascii.eqb_neq in E. apply E.
    rewrite <- (ascii_nat_embedding c), F. reflexivity.
Qed.

Lemma slice_to_end (s : str) (i : nat) : Str.slice s i (length s) = skipn i s.
Proof.
  unfold Str.slice. apply firstn_all2. rewrite length_skipn. lia.
Qed.

Lemma slice_from_start (s : str) (j : nat) : Str.slice s 0 j = firstn j s.
Proof. unfold Str.slice. now rewrite Nat.sub_0_r. Qed.

(** Claim C7.  The function is total, and for every text its result is the
    body between the markers, carriage returns removed and whitespace
    trimmed at both ends: the body starts after the closing token of the
    leftmost start marker, or at the start of the text without one, and
    ends before the leftmost end marker, or at the end of the text without
    one. *)
Theorem strip_gutenberg_boilerplate_between_markers (txt : str) :
  let start := Re.search_marker START_OF 0 txt in
  let end_ := Re.search_marker END_OF 0 txt in
  marker_found START_OF txt start
  /\ marker_found END_OF txt end_
  /\ strip_gutenberg_boilerplate txt
     = Str.strip (remove_cr (body_between txt start end_)).
Proof.
  intros start end_. split; [apply search_marker_found|].
  split; [apply search_marker_found|].
  unfold strip_gutenberg_boilerplate. fold start. fold end_.
  rewrite remove_cr_eq. do 2 f_equal. unfold body_between.
  destruct start as [[ps es]|], end_ as [[pe ee]|].
  - reflexivity.
  - apply slice_to_end.
  - apply slice_from_start.
  - rewrite slice_to_end. reflexivity.
Qed.

(** ** The segmenter *)

Lemma is_nl_isspace (c : ascii) : Chr.is_nl c = true -> Chr.isspace c = true.
Proof.
  unfold Chr.is_nl, Chr.isspace. intros H. apply Nat.eqb_eq in H.
  now rewrite H.
Qed.

(** [re.split] with one group returns an odd number of pieces. *)
Lemma split_heading_length (s : str) :
  forall skip cur, exists k, length (Re.split_heading skip cur s) = 2 * k + 1.
Proof.
  induction s as [|c s IH]; intros skip cur.
  - exists 0. reflexivity.
  - destruct skip as [|skip]; [|apply IH].
    change (Re.split_heading 0 cur (c :: s))
      with (match Re.match_heading (c :: s) with
            | Some (g, n) => rev cur :: g :: Re.split_heading (n - 1) [] s
            | None => Re.split_heading 0 (c :: cur) s
            end).
    destruct (Re.match_heading (c :: s)) as [[g n]|]; [|apply IH].
    destruct (IH (n - 1) []) as [k Hk]. exists (S k).
    simpl length. rewrite Hk. lia.
Qed.

(** The first piece of [re.split] starts with what was read before. *)
Lemma split_rule_first (s : str) :
  forall skip cur, exists t rest, Re.split_rule skip cur s = (rev cur ++ t) :: rest.
Proof.
  induction s as [|c s IH]; intros skip cur.
  - exists [], []. simpl. now rewrite app_nil_r.
  - destruct skip as [|skip]; [|apply IH].
    change (Re.split_rule 0 cur (c :: s))
      with (match Re.match_rule (c :: s) with
            | Some n => rev cur :: Re.split_rule (n - 1) [] s
            | None => Re.split_rule 0 (c :: cur) s
            end).
    destruct (Re.match_rule (c :: s)) as [n|].
    + exists [], (Re.split_rule (n - 1) [] s). now rewrite app_nil_r.
    + destruct (IH 0 (c :: cur)) as (t & rest & H).
      exists (c :: t), rest. rewrite H. simpl. now rewrite <- app_assoc.
Qed.

Lemma dropwhile_snoc (p : ascii -> bool) (l : str) (c : ascii) :
  p c = false -> Str.dropwhile p (l ++ [c]) <> [].
Proof.
  intros H. induction l as [|x l IH]; simpl.
  - rewrite H. discriminate.
  - destruct (p x); [exact IH|discriminate].
Qed.

Lemma strip_nonempty (c : ascii) (t : str) :
  Chr.isspace c = false -> Str.nonempty (Str.strip (c :: t)) = true.
Proof.
  intros H. apply nonempty_true. unfold Str.strip, Str.lstrip, Str.rstrip.
  simpl Str.dropwhile at 2. rewrite H. intros E.
  apply (f_equal (@rev ascii)) in E. rewrite rev_involutive in E.
  revert E. simpl rev. apply dropwhile_snoc. exact H.
Qed.

Lemma split_chapters_fallback_nonempty (c : ascii) (txt : str) :
  Chr.isspace c = false ->
  numbered_sections 0 (Re.split_rule 0 [] (c :: txt)) <> [].
Proof.
  intros H.
  assert (E : Re.match_rule (c :: txt) = None).
  { simpl. destruct (Chr.is_nl c) eqn:N; [|reflexivity].
    apply is_nl_isspace in N. congruence. }
  change (Re.split_rule 0 [] (c :: txt))
    with (match Re.match_rule (c :: txt) with
          | Some n => rev [] :: Re.split_rule (n - 1) [] txt
          | None => Re.split_rule 0 [c] txt
          end).
  rewrite E. destruct (split_rule_first txt 0 [c]) as (t & rest & ->).
  simpl rev. simpl app. simpl numbered_sections.
  rewrite (@strip_nonempty c t H). discriminate.
Qed.

Lemma pairs_nonempty (l : list str) : 2 <= length l -> pairs l <> [].
Proof.
  destruct l as [|a [|b l]]; simpl; try lia. discriminate.
Qed.

(** The heading strategy always yields a section. *)
Lemma split_chapters_primary_nonempty (txt : str) :
  1 < length (Re.split_heading 0 [] txt) -> split_chapters txt <> [].
Proof.
  intros H. unfold split_chapters.
  destruct (Nat.ltb_spec 1 (length (Re.split_heading 0 [] txt))) as [_|]; [|lia].
  destruct (split_heading_length txt 0 []) as [k Hk].
  intros E. apply app_eq_nil in E. destruct E as [_ E].
  apply map_eq_nil in E. revert E. apply pairs_nonempty.
  destruct (Re.split_heading 0 [] txt) as [|x l]; simpl in *; lia.
Qed.

Lemma dropwhile_all (p : ascii -> bool) (s : str) :
  forallb p s = true -> Str.dropwhile p s = [].
Proof.
  induction s as [|c s IH]; simpl; [reflexivity|].
  destruct (p c); simpl; [exact IH|discriminate].
Qed.

Lemma match_heading_blank (s : str) :
  forallb Chr.isspace s = true -> Re.match_heading s = None.
Proof.
  destruct s as [|c s]; [reflexivity|]. simpl forallb.
  intros H. apply andb_true_iff in H. destruct H as [_ H].
  unfold Re.match_heading. destruct (Chr.is_nl c); [|reflexivity].
  rewrite (dropwhile_all _ _ H). reflexivity.
Qed.

Lemma match_rule_blank (s : str) :
  forallb Chr.isspace s = true -> Re.match_rule s = None.
Proof.
  destruct s as [|c s]; [reflexivity|]. simpl forallb.
  intros H. apply andb_true_iff in H. destruct H as [_ H].
  unfold Re.match_rule. destruct (Chr.is_nl c); [|reflexivity].
  rewrite (dropwhile_all _ _ H). reflexivity.
Qed.

Lemma split_heading_blank (s : str) :
  forallb Chr.isspace s = true ->
  forall cur, Re.split_heading 0 cur s = [rev cur ++ s].
Proof.
  induction s as [|c s IH]; intros H cur.
  - simpl. now rewrite app_nil_r.
  - change (Re.split_heading 0 cur (c :: s))
      with (match Re.match_heading (c :: s) with
            | Some (g, n) => rev cur :: g :: Re.split_heading (n - 1) [] s
            | None => Re.split_heading 0 (c :: cur) s
            end).
    rewrite (match_heading_blank _ H). simpl in H.
    apply andb_true_iff in H. destruct H as [_ H].
    rewrite (IH H). simpl. now rewrite <- app_assoc.
Qed.

Lemma split_rule_blank (s : str) :
  forallb Chr.isspace s = true ->
  forall cur, Re.split_rule 0 cur s = [rev cur ++ s].
Proof.
  induction s as [|c s IH]; intros H cur.
  - simpl. now rewrite app_nil_r.
  - change (Re.split_rule 0 cur (c :: s))
      with (match Re.match_rule (c :: s) with
            | Some n => rev cur :: Re.split_rule (n - 1) [] s
            | None => Re.split_rule 0 (c :: cur) s
            end).
    rewrite (match_rule_blank _ H). simpl in H.
    apply andb_true_iff in H. destruct H as [_ H].
    rewrite (IH H). simpl. now rewrite <- app_assoc.
Qed.

(** A text of whitespace only has no section. *)
Lemma split_chapters_blank (txt : str) :
  forallb Chr.isspace txt = true -> split_chapters txt = [].
Proof.
  intros H. unfold split_chapters.
  rewrite (split_heading_blank _ H), (split_rule_blank _ H). simpl.
  unfold Str.strip, Str.lstrip. now rewrite (dropwhile_all _ _ H).
Qed.

(** The sections of the fallback are the chunks that are not blank, in
    their order, each under the number of its chunk. *)
Lemma numbered_sections_from (rough : list str) :
  forall i,
    numbered_sections i rough
    = map (fun ns => (lit "Section " ++ Str.of_nat (fst ns + 1), Str.strip (snd ns)))
          (filter (fun ns => Str.nonempty (Str.strip (snd ns)))
                  (combine (seq i (length rough)) rough)).
Proof.
  induction rough as [|s rough IH]; intros i; simpl; [reflexivity|].
  rewrite IH. now destruct (Str.nonempty (Str.strip s)).
Qed.

Lemma numbered_sections_fallback (rough : list str) :
  numbered_sections 0 rough = fallback_sections rough.
Proof. apply numbered_sections_from. Qed.

(** Claim C5, as stated, fails: the text of one space is not empty and has
    no section. *)
Lemma split_chapters_blank_input :
  [Chr.space] <> [] /\ split_chapters [Chr.space] = [].
Proof. split; [discriminate|reflexivity]. Qed.

(** Claim C5, amended.  A text whose first character is not whitespace has
    at least one section, and its sections are those of the heading
    strategy, the text before the first heading under the title
    Introduction when it is not blank and then the headings with their
    text, or those of the fallback, the chunks between the dashed rules
    that are not blank, in their order, under the title Section N. *)
Theorem split_chapters_nonempty (c : ascii) (txt : str) :
  Chr.isspace c = false ->
  split_chapters (c :: txt) <> []
  /\ (split_chapters (c :: txt)
      = intro_section (hd [] (Re.split_heading 0 [] (c :: txt)))
          ++ headed_sections (Re.split_heading 0 [] (c :: txt))
      \/ split_chapters (c :: txt)
         = fallback_sections (Re.split_rule 0 [] (c :: txt))).
Proof.
  intros H.
  destruct (Nat.ltb_spec 1 (length (Re.split_heading 0 [] (c :: txt)))) as [L|L].
  - split; [now apply split_chapters_primary_nonempty|]. left.
    unfold split_chapters.
    destruct (Nat.ltb_spec 1 (length (Re.split_heading 0 [] (c :: txt))));
      [reflexivity|lia].
  - unfold split_chapters.
    destruct (Nat.ltb_spec 1 (length (Re.split_heading 0 [] (c :: txt))));
      [lia|].
    split; [now apply split_chapters_fallback_nonempty|]. right.
    apply numbered_sections_fallback.
Qed.

Lemma split_chapters_nonempty_witness :
  Chr.isspace "a"%char = false /\ split_chapters (lit "a") <> [].
Proof.
  split; [reflexivity|].
  exact (proj1 (@split_chapters_nonempty "a"%char [] eq_refl)).
Defined.

(** ** The normalizer *)

Lemma code_inj (a b : ascii) : Chr.code a = Chr.code b -> a = b.
Proof.
  unfold Chr.code. intros H.
  rewrite <- (ascii_nat_embedding a), <- (ascii_nat_embedding b). now f_equal.
Qed.

Lemma is_nl_eq (c : ascii) : Chr.is_nl c = true -> c = Chr.nl.
Proof.
  unfold Chr.is_nl. intros H. apply Nat.eqb_eq in H. now apply code_inj.
Qed.

Lemma is_hspace_not_nl (c : ascii) :
  Chr.is_hspace c = true -> Chr.is_nl c = false.
Proof.
  unfold Chr.is_hspace, Chr.is_nl. intros H.
  destruct (Nat.eqb_spec (Chr.code c) 10) as [E|]; [|reflexivity].
  rewrite E in H. discriminate.
Qed.

Lemma skipn_takewhile (p : ascii -> bool) (s : str) :
  skipn (length (Str.takewhile p s)) s = Str.dropwhile p s.
Proof.
  induction s as [|c s IH]; simpl; [reflexivity|].
  destruct (p c); simpl; [exact IH|reflexivity].
Qed.

Lemma dropwhile_length (p : ascii -> bool) (s : str) :
  length (Str.dropwhile p s) <= length s.
Proof.
  induction s as [|c s IH]; simpl; [lia|]. destruct (p c); simpl; lia.
Qed.

Lemma sub_runs_skip (cls : ascii -> bool) (m : nat) (repl s : str) :
  forall k, Re.sub_runs cls m repl k s = Re.sub_runs cls m repl 0 (skipn k s).
Proof.
  induction s as [|c s IH]; intros [|k]; try reflexivity. simpl. apply IH.
Qed.

(** One step of the substitution at the head of a string. *)
Lemma sub_runs_cons (cls : ascii -> bool) (m : nat) (repl s : str) (c : ascii) :
  Re.sub_runs cls m repl 0 (c :: s)
  = if cls c
    then if m <=? S (length (Str.takewhile cls s))
         then repl ++ Re.sub_runs cls m repl 0 (Str.dropwhile cls s)
         else c :: Re.sub_runs cls m repl 0 s
    else c :: Re.sub_runs cls m repl 0 s.
Proof.
  simpl. destruct (cls c); simpl; [|reflexivity].
  destruct (m <=? S (length (Str.takewhile cls s))); [|reflexivity].
  now rewrite Nat.sub_0_r, sub_runs_skip, skipn_takewhile.
Qed.

Lemma squeeze_nl_past (s : str) :
  forall n, 2 <= n -> squeeze_nl n s = squeeze_nl 0 (Str.dropwhile Chr.is_nl s).
Proof.
  induction s as [|c s IH]; intros n Hn; simpl; [reflexivity|].
  destruct (Chr.is_nl c) eqn:E.
  - destruct (Nat.ltb_spec n 2); [lia|]. apply IH. lia.
  - simpl. now rewrite E.
Qed.

Lemma squeeze_nl_head (s : str) (n : nat) :
  match s with [] => true | c :: _ => negb (Chr.is_nl c) end = true ->
  squeeze_nl n s = squeeze_nl 0 s.
Proof.
  destruct s as [|c s]; simpl; [reflexivity|].
  now destruct (Chr.is_nl c).
Qed.

Lemma sub_runs_squeeze_nl (s : str) :
  Re.sub_runs Chr.is_nl 2 [Chr.nl; Chr.nl] 0 s = squeeze_nl 0 s.
Proof.
  remember (length s) as len eqn:Hlen. revert s Hlen.
  induction len as [len IH] using lt_wf_ind. intros s Hlen.
  destruct s as [|c s]; [reflexivity|].
  rewrite sub_runs_cons. simpl squeeze_nl. simpl in Hlen.
  destruct (Chr.is_nl c) eqn:E.
  - destruct s as [|c' s].
    + reflexivity.
    + simpl Str.takewhile. simpl Str.dropwhile. simpl squeeze_nl.
      destruct (Chr.is_nl c') eqn:E'.
      * cbn [length Nat.leb app]. rewrite (@is_nl_eq c E), (@is_nl_eq c' E').
        rewrite squeeze_nl_past by lia. do 2 f_equal.
        apply (IH (length (Str.dropwhile Chr.is_nl s))); [|reflexivity].
        assert (L := dropwhile_length Chr.is_nl s). simpl in Hlen. lia.
      * cbn [length Nat.leb]. f_equal.
        rewrite (IH (length (c' :: s)) ltac:(simpl in *; lia) (c' :: s) eq_refl).
        simpl. now rewrite E'.
  - f_equal. apply (IH (length s)); [lia|reflexivity].
Qed.

Lemma squeeze_hs_inrun (s : str) :
  squeeze_hs true s = squeeze_hs false (Str.dropwhile Chr.is_hspace s).
Proof.
  induction s as [|c s IH]; simpl; [reflexivity|].
  destruct (Chr.is_hspace c) eqn:E; [exact IH|].
  simpl. now rewrite E.
Qed.

Lemma sub_runs_squeeze_hs (s : str) :
  Re.sub_runs Chr.is_hspace 1 [Chr.space] 0 s = squeeze_hs false s.
Proof.
  remember (length s) as len eqn:Hlen. revert s Hlen.
  induction len as [len IH] using lt_wf_ind. intros s Hlen.
  destruct s as [|c s]; [reflexivity|].
  rewrite sub_runs_cons. simpl squeeze_hs. simpl in Hlen.
  destruct (Chr.is_hspace c) eqn:E.
  - simpl. f_equal. rewrite squeeze_hs_inrun.
    apply (IH (length (Str.dropwhile Chr.is_hspace s))); [|reflexivity].
    assert (L := dropwhile_length Chr.is_hspace s). lia.
  - f_equal. apply (IH (length s)); [lia|reflexivity].
Qed.

Lemma squeeze_nl_ok (s : str) :
  forall n, nl_ok (Nat.min n 2) (squeeze_nl n s) = true.
Proof.
  induction s as [|c s IH]; intros n; simpl; [reflexivity|].
  destruct (Chr.is_nl c) eqn:E.
  - destruct (Nat.ltb_spec n 2) as [L|L].
    + simpl. rewrite E. replace (Nat.min n 2) with n by lia.
      destruct (Nat.ltb_spec n 2); [|lia]. simpl.
      specialize (IH (S n)). now replace (Nat.min (S n) 2) with (S n) in IH by lia.
    + specialize (IH (S n)).
      replace (Nat.min (S n) 2) with (Nat.min n 2) in IH by lia. exact IH.
  - simpl. rewrite E. apply (IH 0).
Qed.

Lemma nl_ok_fix (s : str) :
  forall n, nl_ok n s = true -> squeeze_nl n s = s.
Proof.
  induction s as [|c s IH]; intros n; simpl; [reflexivity|].
  destruct (Chr.is_nl c).
  - intros H. apply andb_true_iff in H. destruct H as [H1 H2].
    rewrite H1. f_equal. now apply IH.
  - intros H. f_equal. now apply IH.
Qed.

Lemma squeeze_hs_ok (s : str) :
  forall b, hs_ok b (squeeze_hs b s) = true.
Proof.
  induction s as [|c s IH]; intros b; simpl; [reflexivity|].
  destruct (Chr.is_hspace c) eqn:E.
  - destruct b; [apply IH|]. simpl. apply IH.
  - simpl. rewrite E. apply IH.
Qed.

Lemma hs_ok_fix (s : str) :
  forall b, hs_ok b s = true -> squeeze_hs b s = s.
Proof.
  induction s as [|c s IH]; intros b; simpl; [reflexivity|].
  destruct (Chr.is_hspace c).
  - intros H. apply andb_true_iff in H. destruct H as [H H3].
    apply andb_true_iff in H. destruct H as [H1 H2].
    destruct b; [discriminate|]. apply Ascii.eqb_eq in H2. subst c.
    f_equal. now apply IH.
  - intros H. f_equal. now apply IH.
Qed.

Lemma nl_ok_squeeze_hs (s : str) :
  forall n b, (b = true -> n = 0) ->
              nl_ok n s = true -> nl_ok n (squeeze_hs b s) = true.
Proof.
  induction s as [|c s IH]; intros n b Hb; simpl; [reflexivity|].
  destruct (Chr.is_hspace c) eqn:E.
  - rewrite (is_hspace_not_nl _ E). intros H. destruct b.
    + rewrite (Hb eq_refl). now apply IH.
    + simpl. apply IH; auto.
  - simpl. destruct (Chr.is_nl c).
    + intros H. apply andb_true_iff in H. destruct H as [H1 H2].
      rewrite H1. simpl. apply IH; [discriminate|exact H2].
    + apply IH. discriminate.
Qed.

Lemma nl_ok_mono (s : str) :
  forall n m, m <= n -> nl_ok n s = true -> nl_ok m s = true.
Proof.
  induction s as [|c s IH]; intros n m Hm; simpl; [reflexivity|].
  destruct (Chr.is_nl c); [|auto].
  intros H. apply andb_true_iff in H. destruct H as [H1 H2].
  apply Nat.ltb_lt in H1. apply andb_true_iff. split.
  - apply Nat.ltb_lt. lia.
  - apply (IH (S n)); [lia|exact H2].
Qed.

Lemma nl_ok_app (a b : str) :
  forall n, nl_ok n (a ++ b) = true -> nl_ok n a = true /\ nl_ok 0 b = true.
Proof.
  induction a as [|c a IH]; intros n; simpl.
  - intros H. split; [reflexivity|]. apply (nl_ok_mono b (n := n)); [lia|exact H].
  - destruct (Chr.is_nl c).
    + intros H. apply andb_true_iff in H. destruct H as [H1 H2].
      rewrite H1. simpl. now apply IH.
    + apply IH.
Qed.

Lemma hs_ok_mono (s : str) (b : bool) : hs_ok b s = true -> hs_ok false s = true.
Proof.
  destruct s as [|c s]; simpl; [reflexivity|].
  destruct (Chr.is_hspace c); [|auto]. destruct b; [discriminate|auto].
Qed.

Lemma hs_ok_app (a b : str) :
  forall r, hs_ok r (a ++ b) = true -> hs_ok r a = true /\ hs_ok false b = true.
Proof.
  induction a as [|c a IH]; intros r; simpl.
  - intros H. split; [reflexivity|]. now apply hs_ok_mono with r.
  - destruct (Chr.is_hspace c).
    + intros H. apply andb_true_iff in H. destruct H as [H1 H2].
      rewrite H1. simpl. now apply IH.
    + apply IH.
Qed.

Lemma strip_infix (s : str) : exists a b, s = a ++ Str.strip s ++ b.
Proof.
  unfold Str.strip.
  destruct (dropwhile_suffix Chr.isspace s) as [a Ha].
  destruct (rstrip_prefix (Str.lstrip s)) as [b Hb].
  exists a, b. unfold Str.lstrip in *. now rewrite <- Hb.
Qed.

Lemma normalize_spaces_eq (txt : str) :
  normalize_spaces txt = Str.strip (squeeze_hs false (squeeze_nl 0 txt)).
Proof.
  unfold normalize_spaces. now rewrite sub_runs_squeeze_nl, sub_runs_squeeze_hs.
Qed.

(** What a normalized text looks like. *)
Lemma normalize_spaces_normal (txt : str) :
  nl_ok 0 (normalize_spaces txt) = true
  /\ hs_ok false (normalize_spaces txt) = true
  /\ tight (normalize_spaces txt).
Proof.
  rewrite normalize_spaces_eq.
  destruct (strip_infix (squeeze_hs false (squeeze_nl 0 txt))) as (a & b & E).
  assert (H1 : nl_ok 0 (squeeze_hs false (squeeze_nl 0 txt)) = true).
  { apply nl_ok_squeeze_hs; [discriminate|]. apply (squeeze_nl_ok txt 0). }
  assert (H2 := squeeze_hs_ok (squeeze_nl 0 txt) false).
  rewrite E in H1, H2 at 1.
  apply nl_ok_app in H1. destruct H1 as [_ H1].
  apply nl_ok_app in H1. destruct H1 as [H1 _].
  apply hs_ok_app in H2. destruct H2 as [_ H2].
  apply hs_ok_app in H2. destruct H2 as [H2 _].
  split; [exact H1|]. split; [exact H2|]. apply strip_tight.
Qed.

(** Claim C6.  [normalize_spaces] is idempotent. *)
Theorem normalize_spaces_idempotent (x : str) :
  normalize_spaces (normalize_spaces x) = normalize_spaces x.
Proof.
  destruct (normalize_spaces_normal x) as (H1 & H2 & H3).
  rewrite (normalize_spaces_eq (normalize_spaces x)).
  rewrite (nl_ok_fix _ _ H1), (hs_ok_fix _ _ H2).
  now apply tight_strip.
Qed.

(** ** The script *)

Module ScriptFacts.

Import Script ScriptSpec.

(** A run that goes through writes the page. *)
Lemma main_writes_page :
  snd (main env_up disk) = Ok tt
  /\ lookup INDEX_HTML (files (fst (main env_up disk)))
     = Some (page (lit "November 03, 2026") (lit "Self-Reliance")
                  (lit "Ralph Waldo Emerson") (lit "covers/placeholder.jpg")
                  false (lit "Section 1") (lit "Trust thyself."))
  /\ stdout (fst (main env_up disk)) = [lit "Generated daily one-pager."].
Proof. repeat split; vm_compute; reflexivity. Qed.

(** Claim C9.  When the run gets as far as the request and the fetch
    fails, whether the request raises or the status of the answer makes
    [raise_for_status] raise, the run ends with that exception, the files
    are those it started with, so that [docs/index.html] is neither made
    nor changed, and nothing is printed. *)
Theorem fetch_failure_leaves_page_intact
        (e : env) (w : world) (url : str) (ex : exn) :
  reaches_fetch e w url ->
  fetch_fails e url ex ->
  snd (main e w) = Raise ex
  /\ files (fst (main e w)) = files w
  /\ lookup INDEX_HTML (files (fst (main e w))) = lookup INDEX_HTML (files w)
  /\ stdout (fst (main e w)) = stdout w.
Proof.
  intros (H1 & H2 & raw_catalog & catalog & b & H3 & H4 & H5 & H6) Hf.
  destruct w as [d f o]. cbn [files] in H1, H2, H3.
  unfold main, fetch.
  cbv [seq lift ret makedirs read_file files dirs stdout].
  rewrite H1, H2, H3, H4, H5, H6. cbn [getitem].
  destruct Hf as [Hf|(r & Hf & Hs)]; rewrite Hf; [|rewrite Hs];
    cbn [fst snd]; repeat split; reflexivity.
Qed.

(** On a disk that holds the catalog and the page of the day before: the
    request for the address of the book raises, or is answered with the
    status 404, while any other address would be answered. *)
Lemma fetch_failure_leaves_page_intact_witness :
  reaches_fetch env_down disk one_book_url
  /\ fetch_fails env_down one_book_url RequestException
  /\ requests_get env_down (lit "https://www.gutenberg.org/")
     = answer 200 "Trust thyself."
  /\ snd (main env_down disk) = Raise RequestException
  /\ lookup INDEX_HTML (files (fst (main env_down disk))) = Some old_page
  /\ snd (main env_not_found disk) = Raise HTTPError
  /\ lookup INDEX_HTML (files (fst (main env_not_found disk))) = Some old_page.
Proof.
  assert (R1 : reaches_fetch env_down disk one_book_url).
  { split; [reflexivity|]. split; [reflexivity|].
    exists catalog_text, [one_book], one_book. repeat split; reflexivity. }
  assert (F1 : fetch_fails env_down one_book_url RequestException)
    by (left; reflexivity).
  assert (R2 : reaches_fetch env_not_found disk one_book_url).
  { split; [reflexivity|]. split; [reflexivity|].
    exists catalog_text, [one_book], one_book. repeat split; reflexivity. }
  assert (F2 : fetch_fails env_not_found one_book_url HTTPError).
  { right. exists {| status_code := 404; text := lit "Not Found" |}.
    split; reflexivity. }
  split; [exact R1|]. split; [exact F1|]. split; [reflexivity|].
  destruct (@fetch_failure_leaves_page_intact
              env_down disk one_book_url RequestException R1 F1)
    as (E1 & _ & E2 & _).
  destruct (@fetch_failure_leaves_page_intact
              env_not_found disk one_book_url HTTPError R2 F2)
    as (E3 & _ & E4 & _).
  split; [exact E1|]. split; [rewrite E2; reflexivity|].
  split; [exact E3|]. rewrite E4. reflexivity.
Defined.

End ScriptFacts.

(** * More properties of the code *)

(** ** The words of an excerpt *)

Lemma split_ws_count (s : str) :
  forall cur,
    length (Str.split_ws_from cur s) = count_words (Str.nonempty cur) s.
Proof.
  induction s as [|c s IH]; intros cur; simpl.
  - now destruct cur.
  - destruct (Chr.isspace c).
    + destruct cur; simpl; now rewrite IH.
    + now rewrite IH.
Qed.

Lemma words_count (s : str) : Str.words s = count_words false s.
Proof. unfold Str.words, Str.split_ws. now rewrite split_ws_count. Qed.

Lemma count_words_app (a b : str) :
  head_ok b = false \/ b = [] ->
  forall st, count_words st (a ++ b) = count_words st a + count_words false b.
Proof.
  intros Hb. induction a as [|c a IH]; intros st; simpl.
  - destruct Hb as [Hb| ->]; [|simpl; lia].
    destruct b as [|x b]; [discriminate|]. simpl in *.
    apply negb_false_iff in Hb. rewrite Hb. destruct st; simpl; lia.
  - destruct (Chr.isspace c); rewrite IH; lia.
Qed.

Lemma words_join_blank (l : list str) :
  Str.words (Str.join blank_line l) = total_words l.
Proof.
  induction l as [|p l IH]; [reflexivity|].
  destruct l as [|q l].
  - simpl. lia.
  - change (Str.join blank_line (p :: q :: l))
      with (p ++ blank_line ++ Str.join blank_line (q :: l)).
    rewrite total_words_cons, <- IH, !words_count.
    rewrite count_words_app by (left; reflexivity).
    reflexivity.
Qed.

(** The excerpt has the words the loop counted, within the 580 unless the
    excerpt is the first paragraph alone. *)
Lemma trimmed_words (content : str) :
  Str.words (trimmed content)
  = total_words (trim_loop (paragraphs content) [] 0)
  /\ (Str.words (trimmed content) <= 580
      \/ hd_error (paragraphs content) = Some (trimmed content)).
Proof.
  destruct (trim_loop_spec (paragraphs content) [] 0)
    as (k & Hk & Heq & _ & Hin & _).
  simpl in Heq.
  assert (Ht : trimmed content
               = Str.join blank_line (firstn k (paragraphs content))).
  { unfold trimmed. rewrite Heq. apply tight_strip, join_tight.
    apply Forall_firstn, paragraphs_tight. }
  rewrite Ht, Heq, words_join_blank. split; [reflexivity|].
  destruct k as [|[|k]].
  - left. simpl. lia.
  - right. destruct (paragraphs content); [simpl in Hk; lia|reflexivity].
  - left. assert (H1 : S k < S (S k)) by lia.
    assert (H2 : 1 <= S k) by lia.
    exact (Hin (S k) H1 (or_intror H2)).
Qed.

(** ** The selector at its edges *)

Lemma ranked_In (chunks : list section) (x : scored_item) :
  In x (ranked chunks) -> In (item_title x, item_content x) chunks.
Proof.
  intros H. apply (Permutation_in _ (ranked_perm chunks)) in H.
  apply score_from_In in H. destruct H as (_ & H & _).
  eapply nth_error_In. exact H.
Qed.

Lemma Ok_pair_inj {A B : Type} (a a' : A) (b b' : B) :
  Ok (a, b) = Ok (a', b') -> a = a' /\ b = b'.
Proof. intros [= -> ->]. now split. Qed.

Lemma choose_nonempty_ok (chunks : list section) :
  chunks <> [] -> exists r, choose_important_section chunks = Ok r.
Proof.
  intros H. unfold choose_important_section.
  destruct (select_loop (ranked chunks)) as [r|]; [now exists r|].
  destruct chunks as [|[t c] rest]; [congruence|]. now eexists.
Qed.

(** Extra X1.  [choose_important_section] raises on the empty list, where
    [chunks[0]] does not exist, with [IndexError], and on no other list. *)
Theorem choose_important_section_raises_iff_empty (chunks : list section) :
  (forall e, choose_important_section chunks = Raise e ->
             chunks = [] /\ e = IndexError)
  /\ (chunks = [] -> choose_important_section chunks = Raise IndexError).
Proof.
  split.
  - intros e H. destruct chunks as [|s rest].
    + vm_compute in H. injection H as <-. now split.
    + destruct (@choose_nonempty_ok (s :: rest) ltac:(discriminate)) as [r Hr].
      congruence.
  - intros ->. reflexivity.
Qed.

(** Extra X2.  Whatever [choose_important_section] returns, the title is
    the title of one of the sections it was given, and the content is that
    section's trimmed content, of at least 220 words, or, for the first
    section only, the first 1200 characters of its content at most. *)
Theorem choose_important_section_returns_a_section
        (chunks : list section) (title passage : str) :
  choose_important_section chunks = Ok (title, passage) ->
  exists content,
    In (title, content) chunks
    /\ ((passage = trimmed content /\ 220 <= Str.words passage)
        \/ (hd_error chunks = Some (title, content)
            /\ passage = firstn 1200 content
            /\ length passage <= 1200)).
Proof.
  unfold choose_important_section.
  destruct (select_loop (ranked chunks)) as [r|] eqn:E.
  - intros [= ->]. apply select_loop_some in E.
    destruct E as (pre & x & post & Hr & _ & Hx & [= -> ->]).
    exists (item_content x). split.
    + apply ranked_In. rewrite Hr. apply in_or_app. right. now left.
    + left. split; [reflexivity|]. unfold acceptable in Hx.
      now apply Nat.leb_le.
  - destruct chunks as [|[t c] rest]; [discriminate|].
    intros H. apply Ok_pair_inj in H. destruct H as [-> <-]. exists c.
    split; [now left|]. right. split; [reflexivity|].
    split; [reflexivity|]. apply firstn_le_length.
Qed.

Lemma choose_important_section_returns_a_section_witness :
  choose_important_section [(lit "Preface", lit "On discipline.")]
  = Ok (lit "Preface", lit "On discipline.")
  /\ exists content,
       In (lit "Preface", content) [(lit "Preface", lit "On discipline.")].
Proof.
  assert (H : choose_important_section [(lit "Preface", lit "On discipline.")]
              = Ok (lit "Preface", lit "On discipline."))
    by (vm_compute; reflexivity).
  split; [exact H|].
  destruct (@choose_important_section_returns_a_section
              [(lit "Preface", lit "On discipline.")]
              (lit "Preface") (lit "On discipline.") H) as (content & Hin & _).
  now exists content.
Defined.

(** Extra X3.  When the loop over the candidates returns, the excerpt has at
    least 220 words, and at most 580 unless it is the first paragraph of
    its section alone; its words are the words the loop counted. *)
Theorem excerpt_word_bounds (chunks : list section) (title chosen : str) :
  select_loop (ranked chunks) = Some (title, chosen) ->
  220 <= Str.words chosen
  /\ (Str.words chosen <= 580
      \/ exists content,
           In (title, content) chunks
           /\ hd_error (paragraphs content) = Some chosen).
Proof.
  intros E. apply select_loop_some in E.
  destruct E as (pre & x & post & Hr & _ & Hx & [= -> ->]).
  split; [unfold acceptable in Hx; now apply Nat.leb_le|].
  destruct (trimmed_words (item_content x)) as [_ [H|H]]; [now left|].
  right. exists (item_content x). split; [|exact H].
  apply ranked_In. rewrite Hr. apply in_or_app. right. now left.
Qed.

Lemma excerpt_word_bounds_witness :
  select_loop (ranked tie_chunks)
  = Some (lit "B", Str.join blank_line (repeat (word_line 103) 5))
  /\ 220 <= Str.words (Str.join blank_line (repeat (word_line 103) 5)).
Proof.
  assert (H : select_loop (ranked tie_chunks)
              = Some (lit "B", Str.join blank_line (repeat (word_line 103) 5)))
    by (vm_compute; reflexivity).
  split; [exact H|].
  exact (proj1 (@excerpt_word_bounds tie_chunks (lit "B")
                  (Str.join blank_line (repeat (word_line 103) 5)) H)).
Defined.

(** ** The lines 101 to 108 *)

Lemma sub_breaks_head (c : ascii) (s : str) :
  Chr.isspace c = false ->
  Script.sub_breaks 0 (c :: s) = c :: Script.sub_breaks 0 s.
Proof.
  intros H. simpl.
  destruct (Chr.is_nl c) eqn:N; [|reflexivity].
  apply is_nl_isspace in N. congruence.
Qed.

Lemma strip_head (s : str) :
  Str.strip s = [] \/ exists c t, Str.strip s = c :: t /\ Chr.isspace c = false.
Proof.
  destruct (strip_tight s) as [H _].
  destruct (Str.strip s) as [|c t]; [now left|].
  right. exists c, t. split; [reflexivity|]. simpl in H.
  now apply negb_true_iff.
Qed.

Lemma split_chapters_head_nonempty (c : ascii) (txt : str) :
  Chr.isspace c = false -> split_chapters (c :: txt) <> [].
Proof.
  intros H.
  destruct (Nat.ltb_spec 1 (length (Re.split_heading 0 [] (c :: txt)))) as [L|L].
  - now apply split_chapters_primary_nonempty.
  - unfold split_chapters.
    destruct (Nat.ltb_spec 1 (length (Re.split_heading 0 [] (c :: txt))));
      [lia|].
    now apply split_chapters_fallback_nonempty.
Qed.

Lemma strip_gutenberg_boilerplate_head (raw : str) :
  strip_gutenberg_boilerplate raw = []
  \/ exists c t, strip_gutenberg_boilerplate raw = c :: t
                 /\ Chr.isspace c = false.
Proof. unfold strip_gutenberg_boilerplate. apply strip_head. Qed.

(** Extra X4.  The lines 101 to 108 never raise: thanks to the guard on an
    empty list of sections, [choose_important_section] is always given a
    section. *)
Theorem pick_never_raises (raw : str) : exists r, Script.pick raw = Ok r.
Proof.
  unfold Script.pick. apply choose_nonempty_ok.
  destruct (split_chapters _); discriminate.
Qed.

(** Extra X5.  When nothing is left of the text between the markers, the
    sections are replaced by the default one and the page shows the title
    Passage over an empty passage. *)
Theorem pick_of_empty_body (raw : str) :
  strip_gutenberg_boilerplate raw = [] ->
  Script.pick raw = Ok (lit "Passage", []).
Proof. intros H. unfold Script.pick. rewrite H. reflexivity. Qed.

Lemma pick_of_empty_body_witness :
  strip_gutenberg_boilerplate (lit "*** START OF THIS *** *** END OF THIS ***") = []
  /\ Script.pick (lit "*** START OF THIS *** *** END OF THIS ***")
     = Ok (lit "Passage", []).
Proof.
  split; [reflexivity|].
  exact (@pick_of_empty_body
           (lit "*** START OF THIS *** *** END OF THIS ***") eq_refl).
Defined.

(** Extra X6.  When something is left of the text between the markers, the
    segmenter finds at least one section in it, so the default section is
    not used: the excerpt is chosen among the sections of the text. *)
Theorem pick_of_body (raw : str) :
  strip_gutenberg_boilerplate raw <> [] ->
  split_chapters (Script.sub_breaks 0 (strip_gutenberg_boilerplate raw)) <> []
  /\ Script.pick raw
     = choose_important_section
         (split_chapters (Script.sub_breaks 0 (strip_gutenberg_boilerplate raw))).
Proof.
  intros H.
  destruct (strip_gutenberg_boilerplate_head raw) as [E|(c & t & E & Hc)];
    [congruence|].
  assert (N : split_chapters
                (Script.sub_breaks 0 (strip_gutenberg_boilerplate raw)) <> []).
  { rewrite E, (@sub_breaks_head c t Hc). now apply split_chapters_head_nonempty. }
  split; [exact N|]. unfold Script.pick.
  destruct (split_chapters _); [congruence|reflexivity].
Qed.

Lemma pick_of_body_witness :
  strip_gutenberg_boilerplate (lit "Trust thyself.") <> []
  /\ Script.pick (lit "Trust thyself.")
     = choose_important_section [(lit "Section 1", lit "Trust thyself.")].
Proof.
  assert (H : strip_gutenberg_boilerplate (lit "Trust thyself.") <> [])
    by (vm_compute; discriminate).
  split; [exact H|].
  exact (proj2 (@pick_of_body (lit "Trust thyself.") H)).
Defined.

(** ** What the whitespace passes keep *)

Lemma ink_app (a b : str) : ink (a ++ b) = ink a ++ ink b.
Proof. apply filter_app. Qed.

Lemma ink_blank (s : str) : forallb Chr.isspace s = true -> ink s = [].
Proof.
  induction s as [|c s IH]; simpl; [reflexivity|].
  intros H. apply andb_true_iff in H. destruct H as [H1 H2].
  unfold is_ink. rewrite H1. simpl. now apply IH.
Qed.

Lemma takewhile_all (p : ascii -> bool) (s : str) :
  forallb p (Str.takewhile p s) = true.
Proof.
  induction s as [|c s IH]; simpl; [reflexivity|].
  destruct (p c) eqn:E; simpl; [now rewrite E|reflexivity].
Qed.

Lemma ink_dropwhile (s : str) : ink (Str.dropwhile Chr.isspace s) = ink s.
Proof.
  rewrite <- (takewhile_dropwhile Chr.isspace s) at 2.
  now rewrite ink_app, (ink_blank _ (takewhile_all Chr.isspace s)).
Qed.

Lemma ink_rev (s : str) : ink (rev s) = rev (ink s).
Proof.
  induction s as [|c s IH]; simpl; [reflexivity|].
  rewrite ink_app, IH. simpl. destruct (is_ink c); simpl; [reflexivity|].
  now rewrite app_nil_r.
Qed.

Lemma ink_strip (s : str) : ink (Str.strip s) = ink s.
Proof.
  unfold Str.strip, Str.rstrip, Str.lstrip.
  now rewrite ink_rev, ink_dropwhile, <- ink_rev, rev_involutive, ink_dropwhile.
Qed.

Lemma is_hspace_isspace (c : ascii) :
  Chr.is_hspace c = true -> Chr.isspace c = true.
Proof.
  unfold Chr.is_hspace, Chr.isspace. intros H.
  repeat (apply orb_true_iff in H; destruct H as [H|H]);
    apply Nat.eqb_eq in H; now rewrite H.
Qed.

Lemma ink_cons_space (c : ascii) (s : str) :
  Chr.isspace c = true -> ink (c :: s) = ink s.
Proof. intros H. unfold ink. simpl. unfold is_ink. now rewrite H. Qed.

Lemma ink_cons (c : ascii) (s : str) :
  ink (c :: s) = (if is_ink c then [c] else []) ++ ink s.
Proof. unfold ink. simpl. now destruct (is_ink c). Qed.

Lemma ink_squeeze_nl (s : str) : forall n, ink (squeeze_nl n s) = ink s.
Proof.
  induction s as [|c s IH]; intros n; [reflexivity|].
  simpl squeeze_nl. destruct (Chr.is_nl c) eqn:E.
  - assert (Hc := is_nl_isspace _ E).
    rewrite (@ink_cons_space c s Hc).
    destruct (n <? 2); [rewrite (@ink_cons_space c _ Hc)|]; apply IH.
  - rewrite !ink_cons. now rewrite IH.
Qed.

Lemma ink_squeeze_hs (s : str) : forall b, ink (squeeze_hs b s) = ink s.
Proof.
  induction s as [|c s IH]; intros b; [reflexivity|].
  simpl squeeze_hs. destruct (Chr.is_hspace c) eqn:E.
  - assert (Hc := is_hspace_isspace _ E). rewrite (@ink_cons_space c s Hc).
    destruct b; [apply IH|].
    rewrite ink_cons_space by reflexivity. apply IH.
  - rewrite !ink_cons. now rewrite IH.
Qed.

(** Extra X7.  [normalize_spaces] changes whitespace only: the text without
    its whitespace is the same before and after. *)
Theorem normalize_spaces_keeps_ink (txt : str) :
  ink (normalize_spaces txt) = ink txt.
Proof.
  now rewrite normalize_spaces_eq, ink_strip, ink_squeeze_hs, ink_squeeze_nl.
Qed.

Lemma sub_breaks_skip (s : str) :
  forall k, Script.sub_breaks k s = Script.sub_breaks 0 (skipn k s).
Proof.
  induction s as [|c s IH]; intros [|k]; try reflexivity. simpl. apply IH.
Qed.

Lemma prefixb_ci_length (kw s : str) :
  Str.prefixb_ci kw s = true -> length kw <= length s.
Proof.
  revert s. induction kw as [|x kw IH]; intros [|y s]; simpl; try lia;
    try discriminate.
  intros H. apply andb_true_iff in H. destruct H as [_ H].
  apply IH in H. lia.
Qed.

(** What a match of the pattern of line 103 is made of. *)
Lemma match_break_parts (c : ascii) (s : str) (g : str) (n : nat) :
  Script.match_break (c :: s) = Some (g, n) ->
  exists ws rest,
    s = ws ++ g ++ rest
    /\ forallb Chr.isspace ws = true
    /\ Chr.isspace c = true
    /\ n = 1 + length ws + length g
    /\ (exists kw, In kw Re.heading_words /\ Str.prefixb_ci kw g = true
                   /\ length g = length kw).
Proof.
  unfold Script.match_break.
  destruct (Chr.is_nl c) eqn:N; [|discriminate].
  destruct (find _ Re.heading_words) as [kw|] eqn:F; [|discriminate].
  apply List.find_some in F. destruct F as [Hin Hpre].
  assert (Hlen := prefixb_ci_length _ _ Hpre).
  set (s2 := Str.dropwhile Chr.isspace s) in *.
  assert (Hg : forall r, Some (firstn (length kw) s2,
                               1 + length (Str.takewhile Chr.isspace s) + length kw)
                         = Some (g, n) ->
                         r = skipn (length kw) s2 ->
                         exists ws rest,
                           s = ws ++ g ++ rest
                           /\ forallb Chr.isspace ws = true
                           /\ Chr.isspace c = true
                           /\ n = 1 + length ws + length g
                           /\ (exists kw, In kw Re.heading_words
                                          /\ Str.prefixb_ci kw g = true
                                          /\ length g = length kw)).
  { intros r H Hr. injection H as <- <-.
    exists (Str.takewhile Chr.isspace s), r. subst r.
    rewrite firstn_skipn. split; [symmetry; apply takewhile_dropwhile|].
    split; [apply takewhile_all|]. split; [now apply is_nl_isspace|].
    rewrite length_firstn, Nat.min_l by exact Hlen.
    split; [reflexivity|]. exists kw. split; [exact Hin|].
    split; [|reflexivity].
    clear - Hpre. revert Hpre. generalize s2. clear s2.
    induction kw as [|x kw IH]; intros [|y s2]; simpl; try reflexivity;
      try discriminate.
    intros H. apply andb_true_iff in H. destruct H as [H1 H2].
    rewrite H1. simpl. now apply IH. }
  destruct (skipn (length kw) s2) as [|w r] eqn:S.
  - intros H. now apply (Hg []).
  - destruct (Chr.is_word w); [discriminate|].
    intros H. now apply (Hg (w :: r)).
Qed.

Lemma skipn_app_length {A} (a b : list A) : skipn (length a) (a ++ b) = b.
Proof. induction a; simpl; auto. Qed.

Lemma sub_breaks_cons (c : ascii) (s : str) :
  Script.sub_breaks 0 (c :: s)
  = match Script.match_break (c :: s) with
    | Some (g, n) => blank_line ++ g ++ Script.sub_breaks 0 (skipn (n - 1) s)
    | None => c :: Script.sub_breaks 0 s
    end.
Proof.
  change (Script.sub_breaks 0 (c :: s))
    with (match Script.match_break (c :: s) with
          | Some (g, n) => blank_line ++ g ++ Script.sub_breaks (n - 1) s
          | None => c :: Script.sub_breaks 0 s
          end).
  destruct (Script.match_break (c :: s)) as [[g n]|]; [|reflexivity].
  now rewrite sub_breaks_skip.
Qed.

(** Extra X8.  The substitution of line 103, which sets a blank line
    before the headings, changes whitespace only. *)
Theorem sub_breaks_keeps_ink (body : str) :
  ink (Script.sub_breaks 0 body) = ink body.
Proof.
  remember (length body) as len eqn:Hlen. revert body Hlen.
  induction len as [len IH] using lt_wf_ind. intros s Hlen.
  destruct s as [|c s]; [reflexivity|].
  rewrite sub_breaks_cons.
  destruct (Script.match_break (c :: s)) as [[g n]|] eqn:M.
  - apply match_break_parts in M.
    destruct M as (ws & rest & -> & Hws & Hc & -> & _).
    replace (1 + length ws + length g - 1) with (length (ws ++ g))
      by (rewrite length_app; lia).
    rewrite (app_assoc ws g rest), skipn_app_length.
    rewrite (@ink_cons_space c _ Hc), !ink_app, (ink_blank _ Hws).
    rewrite (IH (length rest)); [|subst; simpl; rewrite !length_app; lia|reflexivity].
    reflexivity.
  - rewrite !ink_cons.
    rewrite (IH (length s)); [reflexivity|subst; simpl; lia|reflexivity].
Qed.

(** ** The segmenter at its edges *)

Lemma match_heading_not_nl (c : ascii) (s : str) :
  Chr.is_nl c = false -> Re.match_heading (c :: s) = None.
Proof. intros H. unfold Re.match_heading. now rewrite H. Qed.

Lemma match_rule_not_nl (c : ascii) (s : str) :
  Chr.is_nl c = false -> Re.match_rule (c :: s) = None.
Proof. intros H. unfold Re.match_rule. now rewrite H. Qed.

Lemma split_heading_one_line (s : str) :
  forallb Re.not_nl s = true ->
  forall cur, Re.split_heading 0 cur s = [rev cur ++ s].
Proof.
  induction s as [|c s IH]; intros H cur.
  - simpl. now rewrite app_nil_r.
  - simpl in H. apply andb_true_iff in H. destruct H as [Hc H].
    apply negb_true_iff in Hc.
    change (Re.split_heading 0 cur (c :: s))
      with (match Re.match_heading (c :: s) with
            | Some (g, n) => rev cur :: g :: Re.split_heading (n - 1) [] s
            | None => Re.split_heading 0 (c :: cur) s
            end).
    rewrite (@match_heading_not_nl c s Hc), (IH H). simpl.
    now rewrite <- app_assoc.
Qed.

Lemma split_rule_one_line (s : str) :
  forallb Re.not_nl s = true ->
  forall cur, Re.split_rule 0 cur s = [rev cur ++ s].
Proof.
  induction s as [|c s IH]; intros H cur.
  - simpl. now rewrite app_nil_r.
  - simpl in H. apply andb_true_iff in H. destruct H as [Hc H].
    apply negb_true_iff in Hc.
    change (Re.split_rule 0 cur (c :: s))
      with (match Re.match_rule (c :: s) with
            | Some n => rev cur :: Re.split_rule (n - 1) [] s
            | None => Re.split_rule 0 (c :: cur) s
            end).
    rewrite (@match_rule_not_nl c s Hc), (IH H). simpl.
    now rewrite <- app_assoc.
Qed.

(** Extra X9.  A text of one line, with no line break, has no heading and
    no dashed rule: when it is not blank it is the one section, trimmed,
    under the title Section 1. *)
Theorem split_chapters_of_one_line (txt : str) :
  forallb Re.not_nl txt = true ->
  split_chapters txt
  = if Str.nonempty (Str.strip txt)
    then [(lit "Section 1", Str.strip txt)] else [].
Proof.
  intros H. unfold split_chapters.
  rewrite (split_heading_one_line _ H), (split_rule_one_line _ H). simpl.
  reflexivity.
Qed.

Lemma split_chapters_of_one_line_witness :
  forallb Re.not_nl (lit " Trust thyself. ") = true
  /\ split_chapters (lit " Trust thyself. ")
     = [(lit "Section 1", lit "Trust thyself.")].
Proof.
  split; [reflexivity|].
  exact (@split_chapters_of_one_line (lit " Trust thyself. ") eq_refl).
Defined.

(** ** The stripper *)

Lemma strip_In (s : str) (c : ascii) : In c (Str.strip s) -> In c s.
Proof.
  intros H. destruct (strip_infix s) as (a & b & E). rewrite E.
  apply in_or_app. right. apply in_or_app. now left.
Qed.

(** Extra X10.  The body [strip_gutenberg_boilerplate] returns has no
    carriage return and no whitespace at either end. *)
Theorem strip_gutenberg_boilerplate_clean (txt : str) :
  ~ In Chr.cr (strip_gutenberg_boilerplate txt)
  /\ tight (strip_gutenberg_boilerplate txt).
Proof.
  unfold strip_gutenberg_boilerplate. split; [|apply strip_tight].
  intros H. apply strip_In, filter_In in H. destruct H as [_ H].
  discriminate H.
Qed.

(** ** The escaping *)

Lemma html_entity_inj (x y : ascii) (a b : str) :
  html_entity x ++ a = html_entity y ++ b -> x = y /\ a = b.
Proof.
  unfold html_entity.
  destruct (Ascii.eqb x "&") eqn:X1; [apply Ascii.eqb_eq in X1|];
    [|destruct (Ascii.eqb x "<") eqn:X2; [apply Ascii.eqb_eq in X2|];
      [|destruct (Ascii.eqb x ">") eqn:X3; [apply Ascii.eqb_eq in X3|]]];
    (destruct (Ascii.eqb y "&") eqn:Y1; [apply Ascii.eqb_eq in Y1|];
     [|destruct (Ascii.eqb y "<") eqn:Y2; [apply Ascii.eqb_eq in Y2|];
       [|destruct (Ascii.eqb y ">") eqn:Y3; [apply Ascii.eqb_eq in Y3|]]]);
    subst; simpl; intros H; try discriminate H;
    try (injection H as H; split; congruence);
    try (injection H as H1 H2; subst;
         rewrite ?Ascii.eqb_refl in *; discriminate).
Qed.

(** Extra X11.  The escaping loses nothing: two texts with the same
    escaped text are the same text. *)
Theorem safe_html_injective (a b : str) : safe_html a = safe_html b -> a = b.
Proof.
  rewrite !safe_html_flat_map. revert b.
  induction a as [|x a IH]; intros [|y b]; simpl; intros H.
  - reflexivity.
  - exfalso. unfold html_entity in H.
    destruct (Ascii.eqb y "&"); [discriminate|].
    destruct (Ascii.eqb y "<"); [discriminate|].
    destruct (Ascii.eqb y ">"); discriminate.
  - exfalso. unfold html_entity in H.
    destruct (Ascii.eqb x "&"); [discriminate|].
    destruct (Ascii.eqb x "<"); [discriminate|].
    destruct (Ascii.eqb x ">"); discriminate.
  - apply html_entity_inj in H. destruct H as [-> H]. f_equal. now apply IH.
Qed.

Lemma safe_html_injective_witness :
  safe_html (lit "a<b") = safe_html (lit "a<b") /\ lit "a<b" = lit "a<b".
Proof.
  split; [reflexivity|].
  exact (@safe_html_injective (lit "a<b") (lit "a<b") eq_refl).
Defined.

(** ** The shape of a normalized text *)

Lemma hs_ok_pair (a b : str) (x y : ascii) :
  hs_ok false (a ++ x :: y :: b) = true ->
  Chr.is_hspace x = true -> Chr.is_hspace y = false.
Proof.
  intros H Hx. apply hs_ok_app in H. destruct H as [_ H].
  simpl in H. rewrite Hx in H. simpl in H.
  destruct (Chr.is_hspace y); [|reflexivity].
  apply andb_true_iff in H. destruct H as [_ H]. discriminate H.
Qed.

Lemma hs_ok_char (a b : str) (x : ascii) :
  hs_ok false (a ++ x :: b) = true ->
  Chr.is_hspace x = true -> x = Chr.space.
Proof.
  intros H Hx. apply hs_ok_app in H. destruct H as [_ H].
  simpl in H. rewrite Hx in H. simpl in H.
  apply andb_true_iff in H. destruct H as [H _]. now apply Ascii.eqb_eq.
Qed.

Lemma nl_ok_triple (a b : str) :
  nl_ok 0 (a ++ Chr.nl :: Chr.nl :: Chr.nl :: b) = false.
Proof.
  apply not_true_false. intros H. apply nl_ok_app in H.
  destruct H as [_ H]. simpl in H. discriminate H.
Qed.

(** Extra X12.  In a normalized text every horizontal whitespace character
    is a space, no two of them are adjacent, no three line breaks are
    adjacent, and there is no whitespace at either end. *)
Theorem normalize_spaces_shape (txt : str) :
  (forall a x b,
      normalize_spaces txt = a ++ x :: b ->
      Chr.is_hspace x = true -> x = Chr.space)
  /\ (forall a x y b,
         normalize_spaces txt = a ++ x :: y :: b ->
         Chr.is_hspace x = true -> Chr.is_hspace y = false)
  /\ (forall a b,
         normalize_spaces txt <> a ++ Chr.nl :: Chr.nl :: Chr.nl :: b)
  /\ tight (normalize_spaces txt).
Proof.
  destruct (normalize_spaces_normal txt) as (H1 & H2 & H3).
  split; [|split; [|split; [|exact H3]]].
  - intros a x b E. rewrite E in H2. now apply hs_ok_char with a b.
  - intros a x y b E. rewrite E in H2. now apply hs_ok_pair with a b.
  - intros a b E. rewrite E, nl_ok_triple in H1. discriminate H1.
Qed.

(** ** The sections *)

Lemma revapp_nonnil (d acc : Decimal.uint) :
  acc <> Decimal.Nil -> Decimal.revapp d acc <> Decimal.Nil.
Proof.
  revert acc. induction d; intros acc H; simpl; try exact H;
    apply IHd; discriminate.
Qed.

Lemma little_succ_nonnil (d : Decimal.uint) :
  Decimal.Little.succ d <> Decimal.Nil.
Proof. destruct d; discriminate. Qed.

Lemma to_little_uint_nonnil (n : nat) (acc : Decimal.uint) :
  acc <> Decimal.Nil -> Nat.to_little_uint n acc <> Decimal.Nil.
Proof.
  revert acc. induction n as [|n IH]; intros acc H; simpl; [exact H|].
  apply IH, little_succ_nonnil.
Qed.

Lemma string_of_uint_ink (u : Decimal.uint) :
  forallb is_ink (String.list_ascii_of_string (NilEmpty.string_of_uint u))
  = true.
Proof. induction u; simpl; auto. Qed.

(** The decimal writing of a number: digits, and at least one. *)
Lemma of_nat_ink (n : nat) :
  Str.of_nat n <> [] /\ forallb is_ink (Str.of_nat n) = true.
Proof.
  unfold Str.of_nat, lit. split; [|apply string_of_uint_ink].
  assert (H : Nat.to_uint n <> Decimal.Nil).
  { unfold Nat.to_uint, Decimal.rev.
    assert (L : Nat.to_little_uint n Decimal.zero <> Decimal.Nil)
      by (apply to_little_uint_nonnil; discriminate).
    destruct (Nat.to_little_uint n Decimal.zero); try congruence;
      simpl; apply revapp_nonnil; discriminate. }
  destruct (Nat.to_uint n); try congruence; discriminate.
Qed.

Lemma head_ok_ink (s : str) : forallb is_ink s = true -> head_ok s = true.
Proof.
  destruct s as [|c s]; simpl; [reflexivity|].
  intros H. apply andb_true_iff in H. now destruct H.
Qed.

Lemma forallb_rev {A} (p : A -> bool) (l : list A) :
  forallb p l = true -> forallb p (rev l) = true.
Proof.
  rewrite !forallb_forall. intros H x Hx. apply H. now apply in_rev.
Qed.

Lemma section_title_tight (n : nat) : tight (lit "Section " ++ Str.of_nat n).
Proof.
  destruct (of_nat_ink n) as [Hne Hink]. split; [reflexivity|].
  rewrite rev_app_distr. apply head_ok_app.
  - intros E. apply Hne. apply (f_equal (@rev ascii)) in E.
    now rewrite rev_involutive in E.
  - apply head_ok_ink, forallb_rev, Hink.
Qed.

Lemma numbered_sections_tight (rough : list str) :
  forall i,
    Forall (fun sec : section =>
              tight (fst sec) /\ tight (snd sec) /\ snd sec <> [])
           (numbered_sections i rough).
Proof.
  induction rough as [|s rough IH]; intros i; simpl; [constructor|].
  destruct (Str.nonempty (Str.strip s)) eqn:E; [|apply IH].
  constructor; [|apply IH]. cbn [fst snd]. split; [|split].
  - apply section_title_tight.
  - apply strip_tight.
  - now apply nonempty_true.
Qed.

(** Extra X13.  Every title the segmenter returns is without whitespace at
    its ends, and so is every content but that of the introduction, which
    is kept as found. *)
Theorem split_chapters_trimmed (txt : str) :
  Forall (fun sec : section =>
            tight (fst sec)
            /\ (tight (snd sec) \/ fst sec = lit "Introduction"))
         (split_chapters txt).
Proof.
  unfold split_chapters.
  destruct (1 <? length (Re.split_heading 0 [] txt)).
  - apply Forall_app. split.
    + destruct (Str.nonempty _); constructor; [|constructor].
      split; [now split|now right].
    + apply Forall_forall. intros sec Hsec.
      apply in_map_iff in Hsec. destruct Hsec as (tc & <- & _). simpl.
      split; [apply strip_tight|left; apply strip_tight].
  - eapply Forall_impl; [|apply numbered_sections_tight].
    intros sec (H1 & H2 & _). split; [exact H1|now left].
Qed.

(** ** The titles *)

Lemma space_lower (c : ascii) : Chr.isspace c = true -> Chr.lower c = c.
Proof.
  destruct c as [[] [] [] [] [] [] [] []]; intros H;
    try reflexivity; discriminate H.
Qed.

Lemma word_lower_ink (c : ascii) :
  Chr.is_word c = true -> Chr.isspace (Chr.lower c) = false.
Proof.
  destruct c as [[] [] [] [] [] [] [] []]; intros H;
    try reflexivity; discriminate H.
Qed.

Lemma eqb_ci_ink (x y : ascii) :
  Chr.is_word x = true -> Chr.eqb_ci x y = true -> is_ink y = true.
Proof.
  intros Hx E. unfold Chr.eqb_ci in E. apply Ascii.eqb_eq in E.
  unfold is_ink. apply negb_true_iff. apply not_true_false. intros Hy.
  rewrite (@space_lower y Hy) in E. apply word_lower_ink in Hx.
  rewrite E in Hx. congruence.
Qed.

Lemma prefixb_ci_firstn (kw s t : str) :
  forallb Chr.is_word kw = true ->
  Str.prefixb_ci kw s = true ->
  forallb is_ink (firstn (length kw) s) = true
  /\ Str.prefixb_ci kw (firstn (length kw) s ++ t) = true.
Proof.
  revert s. induction kw as [|x kw IH]; intros [|y s] Hw H; simpl in *;
    try discriminate; try (now split).
  apply andb_true_iff in Hw. destruct Hw as [Hx Hw].
  apply andb_true_iff in H. destruct H as [H1 H2].
  destruct (IH s Hw H2) as [G1 G2].
  rewrite (@eqb_ci_ink x y Hx H1), H1, G1, G2. now split.
Qed.

Lemma dropwhile_app_ink (u v : str) :
  forallb is_ink v = true ->
  Str.dropwhile Chr.isspace (u ++ v) = Str.dropwhile Chr.isspace u ++ v.
Proof.
  intros Hv. induction u as [|c u IH]; simpl.
  - apply dropwhile_fix, head_ok_ink, Hv.
  - destruct (Chr.isspace c); [exact IH|reflexivity].
Qed.

Lemma strip_ink_prefix (p rest : str) :
  p <> [] -> forallb is_ink p = true ->
  Str.strip (p ++ rest) = p ++ Str.rstrip rest.
Proof.
  intros Hne Hp. unfold Str.strip, Str.lstrip.
  rewrite dropwhile_fix by (apply head_ok_app; [exact Hne|now apply head_ok_ink]).
  unfold Str.rstrip. rewrite rev_app_distr.
  rewrite dropwhile_app_ink by (now apply forallb_rev).
  now rewrite rev_app_distr, rev_involutive.
Qed.

Lemma heading_words_word :
  Forall (fun kw => kw <> [] /\ forallb Chr.is_word kw = true) Re.heading_words.
Proof. repeat constructor; discriminate. Qed.

Lemma match_heading_title (s : str) (g : str) (n : nat) :
  Re.match_heading s = Some (g, n) -> heading_title (Str.strip g).
Proof.
  unfold Re.match_heading. destruct s as [|c s1]; [discriminate|].
  destruct (Chr.is_nl c); [|discriminate].
  destruct (find _ Re.heading_words) as [kw|] eqn:F; [|discriminate].
  apply List.find_some in F. destruct F as [Hin Hpre].
  assert (Hkw := proj1 (Forall_forall _ _) heading_words_word kw Hin).
  destruct Hkw as [Hne Hw].
  destruct (Str.takewhile Chr.isspace _) as [|a ws2] eqn:W; [discriminate|].
  destruct (Str.dropwhile Chr.isspace (skipn _ _)) as [|w s4] eqn:D;
    [discriminate|].
  destruct (Chr.is_word w); [|discriminate].
  destruct (Str.dropwhile Re.not_nl (w :: s4)); [discriminate|].
  intros [= <- _].
  destruct (@prefixb_ci_firstn kw _
              (Str.rstrip ((a :: ws2) ++ Str.takewhile Re.not_nl (w :: s4)))
              Hw Hpre) as [G1 G2].
  rewrite strip_ink_prefix; [|intros E; apply Hne|exact G1].
  - exists kw. now split.
  - apply (f_equal (@length ascii)) in E.
    apply prefixb_ci_length in Hpre.
    rewrite length_firstn, Nat.min_l in E by exact Hpre.
    destruct kw; [reflexivity|discriminate E].
Qed.

Lemma split_heading_titles (s : str) :
  forall skip cur,
    Forall (fun tc => heading_title (Str.strip (fst tc)))
           (pairs (tl (Re.split_heading skip cur s))).
Proof.
  induction s as [|c s IH]; intros skip cur; [constructor|].
  destruct skip as [|skip]; [|apply IH].
  change (Re.split_heading 0 cur (c :: s))
    with (match Re.match_heading (c :: s) with
          | Some (g, n) => rev cur :: g :: Re.split_heading (n - 1) [] s
          | None => Re.split_heading 0 (c :: cur) s
          end).
  destruct (Re.match_heading (c :: s)) as [[g n]|] eqn:M; [|apply IH].
  specialize (IH (n - 1) []). simpl tl.
  destruct (Re.split_heading (n - 1) [] s) as [|r0 R]; [constructor|].
  simpl. constructor; [|exact IH].
  simpl. eapply match_heading_title. exact M.
Qed.

Lemma numbered_sections_titles (rough : list str) :
  forall i,
    Forall (fun sec : section => heading_title (fst sec))
           (numbered_sections i rough).
Proof.
  induction rough as [|s rough IH]; intros i; simpl; [constructor|].
  destruct (Str.nonempty (Str.strip s)); [|apply IH].
  constructor; [|apply IH]. simpl.
  exists (lit "SECTION"). split; [right; right; now left|reflexivity].
Qed.

(** Extra X14.  Every title the segmenter returns is Introduction or
    starts, in any case, with one of the words CHAPTER, BOOK and SECTION. *)
Theorem split_chapters_titles (txt : str) :
  Forall (fun sec : section =>
            fst sec = lit "Introduction" \/ heading_title (fst sec))
         (split_chapters txt).
Proof.
  unfold split_chapters.
  destruct (1 <? length (Re.split_heading 0 [] txt)).
  - apply Forall_app. split.
    + destruct (Str.nonempty _); constructor; [now left|constructor].
    + assert (H := split_heading_titles txt 0 []).
      induction H as [|tc l Htc _ IH]; simpl; constructor; [now right|exact IH].
  - eapply Forall_impl; [|apply numbered_sections_titles].
    intros sec H. now right.
Qed.

(** ** Trimming twice *)

Lemma split_on_from_clean (sep : ascii) (p r cur : str) :
  ~ In sep p ->
  Str.split_on_from sep cur (p ++ sep :: r)
  = (rev cur ++ p) :: Str.split_on_from sep [] r.
Proof.
  revert cur. induction p as [|c p IH]; intros cur H; simpl.
  - rewrite Ascii.eqb_refl. now rewrite app_nil_r.
  - destruct (Ascii.eqb c sep) eqn:E.
    + apply Ascii.eqb_eq in E. exfalso. apply H. now left.
    + rewrite IH by (intros G; apply H; now right).
      simpl. now rewrite <- app_assoc.
Qed.

Lemma split_on_from_one (sep : ascii) (p cur : str) :
  ~ In sep p -> Str.split_on_from sep cur p = [rev cur ++ p].
Proof.
  revert cur. induction p as [|c p IH]; intros cur H; simpl.
  - now rewrite app_nil_r.
  - destruct (Ascii.eqb c sep) eqn:E.
    + apply Ascii.eqb_eq in E. exfalso. apply H. now left.
    + rewrite IH by (intros G; apply H; now right).
      simpl. now rewrite <- app_assoc.
Qed.

Lemma split_on_from_no_sep (sep : ascii) (s : str) :
  forall cur, ~ In sep cur ->
              Forall (fun p => ~ In sep p) (Str.split_on_from sep cur s).
Proof.
  induction s as [|c s IH]; intros cur H; simpl.
  - constructor; [|constructor]. intros G. apply H. now apply in_rev.
  - destruct (Ascii.eqb c sep) eqn:E.
    + constructor; [intros G; apply H; now apply in_rev|].
      apply IH. intros [].
    + apply IH. intros [G|G]; [|now apply H].
      apply Ascii.eqb_neq in E. congruence.
Qed.

(** A paragraph: not empty, no whitespace at its ends, on one line. *)
Lemma paragraphs_lines (content : str) :
  Forall (fun p => p <> [] /\ tight p /\ ~ In Chr.nl p) (paragraphs content).
Proof.
  assert (H := paragraphs_tight content). unfold paragraphs in *.
  rewrite Forall_forall in *. intros p Hp. destruct (H p Hp) as [H1 H2].
  split; [exact H1|]. split; [exact H2|].
  apply in_map_iff in Hp. destruct Hp as (q & <- & Hq).
  apply filter_In in Hq. destruct Hq as [Hq _].
  assert (G := @split_on_from_no_sep Chr.nl content [] (fun f => f)).
  rewrite Forall_forall in G. intros I. apply (G q Hq). now apply strip_In.
Qed.

Lemma paragraphs_join (ps : list str) :
  Forall (fun p => p <> [] /\ tight p /\ ~ In Chr.nl p) ps ->
  paragraphs (Str.join blank_line ps) = ps.
Proof.
  induction 1 as [|p ps (Hne & Ht & Hnl) Hps IH]; [reflexivity|].
  assert (Hp : Str.nonempty (Str.strip p) = true)
    by (rewrite (tight_strip Ht); now apply nonempty_true).
  destruct ps as [|q ps].
  - unfold paragraphs, Str.split_on. simpl Str.join.
    rewrite (@split_on_from_one Chr.nl p [] Hnl). simpl. rewrite Hp.
    simpl. now rewrite (tight_strip Ht).
  - change (Str.join blank_line (p :: q :: ps))
      with (p ++ Chr.nl :: Chr.nl :: Str.join blank_line (q :: ps)).
    unfold paragraphs, Str.split_on in *.
    rewrite (@split_on_from_clean Chr.nl p _ [] Hnl).
    change (Str.split_on_from Chr.nl [] (Chr.nl :: Str.join blank_line (q :: ps)))
      with ([] :: Str.split_on_from Chr.nl [] (Str.join blank_line (q :: ps))).
    simpl rev. simpl app. simpl filter. rewrite Hp.
    simpl map. rewrite (tight_strip Ht). f_equal. exact IH.
Qed.

Lemma trim_loop_again (ps : list str) :
  forall sel wcount,
    exists k,
      trim_loop ps sel wcount = sel ++ firstn k ps
      /\ trim_loop (firstn k ps) sel wcount = sel ++ firstn k ps.
Proof.
  induction ps as [|p rest IH]; intros sel wcount.
  - exists 0. simpl. now rewrite app_nil_r.
  - simpl trim_loop at 1.
    destruct ((580 <? wcount + Str.words p) && negb (length sel =? 0)) eqn:E.
    + exists 0. simpl. now rewrite app_nil_r.
    + destruct (IH (sel ++ [p]) (wcount + Str.words p)) as (k & H1 & H2).
      exists (S k).
      change (firstn (S k) (p :: rest)) with (p :: firstn k rest).
      simpl trim_loop. rewrite E, H1, H2, <- app_assoc. now split.
Qed.

(** Extra X15.  Trimming is idempotent: the excerpt of an excerpt is the
    excerpt itself. *)
Theorem trimmed_idempotent (content : str) :
  trimmed (trimmed content) = trimmed content.
Proof.
  destruct (trim_loop_again (paragraphs content) [] 0) as (k & H1 & H2).
  simpl in H1, H2.
  assert (Hk : Forall (fun p => p <> [] /\ tight p /\ ~ In Chr.nl p)
                      (firstn k (paragraphs content)))
    by apply Forall_firstn, paragraphs_lines.
  assert (Ht : trimmed content
               = Str.join blank_line (firstn k (paragraphs content))).
  { unfold trimmed. rewrite H1. apply tight_strip, join_tight.
    eapply Forall_impl; [|exact Hk]. intros p (A & B & _). now split. }
  rewrite Ht. unfold trimmed at 1. rewrite (paragraphs_join Hk), H2.
  apply tight_strip, join_tight.
  eapply Forall_impl; [|exact Hk]. intros p (A & B & _). now split.
Qed.

(** ** The stripper at its edges *)

(** Extra X16.  When the end marker starts before the start marker has
    ended, as when it comes first in the text or opens on the closing
    token of the start marker, the slice is empty and so is the body. *)
Theorem strip_gutenberg_boilerplate_crossed
        (txt : str) (ps es pe ee : nat) :
  Re.search_marker START_OF 0 txt = Some (ps, es) ->
  Re.search_marker END_OF 0 txt = Some (pe, ee) ->
  pe <= es ->
  strip_gutenberg_boilerplate txt = [].
Proof.
  intros H1 H2 H. unfold strip_gutenberg_boilerplate, Str.slice.
  rewrite H1, H2. replace (pe - es) with 0 by lia. reflexivity.
Qed.

Lemma strip_gutenberg_boilerplate_crossed_witness :
  Re.search_marker START_OF 0 (lit "*** START OF A *** END OF A *** text")
  = Some (0, 18)
  /\ Re.search_marker END_OF 0 (lit "*** START OF A *** END OF A *** text")
     = Some (15, 31)
  /\ strip_gutenberg_boilerplate (lit "*** START OF A *** END OF A *** text")
     = [].
Proof.
  split; [reflexivity|]. split; [reflexivity|].
  apply (@strip_gutenberg_boilerplate_crossed
           (lit "*** START OF A *** END OF A *** text") 0 18 15 31
           eq_refl eq_refl).
  lia.
Defined.

Lemma no_stars_no_marker (kw txt : str) :
  Str.find Re.stars txt = None -> Re.search_marker kw 0 txt = None.
Proof.
  intros H. assert (G := search_marker_from kw txt 0).
  destruct (Re.search_marker kw 0 txt) as [[p q]|]; [|reflexivity].
  destruct G as (_ & (_ & _ & Hs & _) & _). unfold stars_at in Hs.
  rewrite (find_none _ _ H) in Hs. discriminate Hs.
Qed.

(** Extra X17.  A text in which [***] does not occur has no marker: it is
    returned whole, without its carriage returns and trimmed. *)
Theorem strip_gutenberg_boilerplate_without_stars (txt : str) :
  Str.find Re.stars txt = None ->
  strip_gutenberg_boilerplate txt = Str.strip (remove_cr txt).
Proof.
  intros H. unfold strip_gutenberg_boilerplate.
  rewrite (@no_stars_no_marker START_OF txt H), (@no_stars_no_marker END_OF txt H).
  rewrite slice_to_end. simpl skipn.
  now rewrite remove_cr_eq.
Qed.

Lemma strip_gutenberg_boilerplate_without_stars_witness :
  Str.find Re.stars (lit " Trust thyself. ") = None
  /\ strip_gutenberg_boilerplate (lit " Trust thyself. ")
     = lit "Trust thyself.".
Proof.
  split; [reflexivity|].
  exact (@strip_gutenberg_boilerplate_without_stars
           (lit " Trust thyself. ") eq_refl).
Defined.

(** ** More on ties, blank texts and escaped texts *)

(** Extra X18.  Of two candidates whose scores are equal, the one of
    greater index is tried first, as the tuples are sorted in descending
    order on the index too. *)
Theorem equal_scores_rank_by_descending_index
        (chunks : list section) (pre mid post : list scored_item)
        (x y : scored_item) :
  ranked chunks = pre ++ x :: mid ++ y :: post ->
  F64.eqb (item_score x) (item_score y) = true ->
  item_idx y < item_idx x.
Proof.
  intros Hr He.
  assert (Hd := ranked_descending chunks). unfold descending in Hd.
  rewrite Hr in Hd. apply StronglySorted_split in Hd.
  assert (Hn := ranked_idx_NoDup chunks). rewrite Hr in Hn.
  rewrite map_app in Hn. apply NoDup_app_remove_l in Hn.
  simpl in Hn. inversion Hn as [|? ? Hnotin _]; subst.
  assert (Hneq : item_idx x <> item_idx y).
  { intros E. apply Hnotin. rewrite map_app. apply in_or_app. right.
    left. now symmetry. }
  rewrite item_ltb_chain in Hd. unfold chain at 1 in Hd.
  fold (score_eq x y) in He. rewrite He in Hd. simpl in Hd.
  unfold chain at 1 in Hd. unfold idx_eq, idx_lt in Hd.
  apply Nat.eqb_neq in Hneq. rewrite Hneq in Hd. simpl in Hd.
  apply Nat.ltb_ge in Hd. apply Nat.eqb_neq in Hneq. lia.
Qed.

Lemma equal_scores_rank_by_descending_index_witness :
  F64.eqb (S754_finite false 6485183463413514 (-52))
          (S754_finite false 6485183463413514 (-52)) = true
  /\ 0 < 1.
Proof.
  split; [reflexivity|].
  exact (@equal_scores_rank_by_descending_index tie_chunks [] [] []
           (S754_finite false 6485183463413514 (-52), 1,
            lit "B", Str.join [Chr.nl] (repeat (word_line 103) 9))
           (S754_finite false 6485183463413514 (-52), 0,
            lit "A", Str.join [Chr.nl] (repeat (word_line 106) 9))
           ltac:(vm_compute; reflexivity) eq_refl).
Defined.

(** Extra X19.  A text made of whitespace only, line breaks included, has
    no section at all: the segmenter returns the empty list. *)
Theorem split_chapters_of_blank_text (txt : str) :
  forallb Chr.isspace txt = true -> split_chapters txt = [].
Proof.
  intros H. unfold split_chapters.
  rewrite (split_heading_blank _ H), (split_rule_blank _ H). simpl.
  unfold Str.strip, Str.lstrip. now rewrite (dropwhile_all _ _ H).
Qed.

Lemma split_chapters_of_blank_text_witness :
  forallb Chr.isspace (lit "  " ++ [Chr.nl] ++ lit " ") = true
  /\ split_chapters (lit "  " ++ [Chr.nl] ++ lit " ") = [].
Proof.
  split; [reflexivity|].
  exact (@split_chapters_of_blank_text (lit "  " ++ [Chr.nl] ++ lit " ") eq_refl).
Defined.

(** Extra X20.  An escaped text has no angle bracket, and as many
    ampersands as the text had ampersands and angle brackets. *)
Theorem safe_html_leaves_no_bracket (s : str) :
  count_occ ascii_dec (safe_html s) "&"%char = length (filter is_special s)
  /\ ~ In "<"%char (safe_html s)
  /\ ~ In ">"%char (safe_html s).
Proof.
  destruct (safe_html_counts s) as (H1 & H2 & H3).
  split; [exact H1|]. split; now apply (count_occ_not_In ascii_dec).
Qed.

(** ** The effects of a run *)

Module ScriptEffectFacts.

Import Script ScriptSpec ScriptEffects ScriptFacts.

Lemma lookup_store_same (p : str) (c : bytes) (fs : list (str * bytes)) :
  lookup p (store p c fs) = Some c.
Proof.
  induction fs as [|[q d] fs IH]; simpl.
  - destruct (Str_eqb_eq p p) as [_ H]. now rewrite H.
  - destruct (Str.eqb p q) eqn:E; simpl.
    + destruct (Str_eqb_eq p p) as [_ H]. now rewrite H.
    + now rewrite E.
Qed.

Lemma lookup_store_other (p q : str) (c : bytes) (fs : list (str * bytes)) :
  q <> p -> lookup q (store p c fs) = lookup q fs.
Proof.
  intros N. assert (Eqp : Str.eqb q p = false).
  { apply not_true_false. intros E. apply Str_eqb_eq in E. congruence. }
  induction fs as [|[r d] fs IH]; simpl.
  - now rewrite Eqp.
  - destruct (Str.eqb p r) eqn:E; simpl.
    + apply Str_eqb_eq in E. subst r. now rewrite Eqp.
    + now rewrite IH.
Qed.

Ltac now_raised :=
  let H := fresh in intros H; cbn [snd] in H; discriminate H.

Ltac untouched :=
  intros _; cbn [fst files stdout]; split; [reflexivity|left; now split].

(** Extra X21.  A run that ends with an exception has left every file
    other than [docs/index.html] as it was.  Either it has left all the
    files as they were and printed nothing, or everything before the
    writing of the page went through (the entry has a title and an author,
    its address was answered and an excerpt was picked) and
    [docs/index.html] holds the first bytes of the new page, possibly none
    or all of them: the exception is then that of the writing or of the
    printing. *)
Theorem main_raising_spares_the_other_files
        (e : env) (w : world) (ex : exn) :
  snd (main e w) = Raise ex ->
  (forall p, p <> INDEX_HTML ->
             lookup p (files (fst (main e w))) = lookup p (files w))
  /\ ((files (fst (main e w)) = files w /\ stdout (fst (main e w)) = stdout w)
      \/ exists b resp title author sp cover_exists n,
           bk_title b = Some title
           /\ bk_author b = Some author
           /\ option_map (requests_get e) (bk_gutenberg_url b) = Some (Ok resp)
           /\ raise_for_status resp = Ok tt
           /\ pick (text resp) = Ok sp
           /\ lookup INDEX_HTML (files (fst (main e w)))
              = Some (firstn n (page (today_text e) title author
                                     (cover_path_of b) cover_exists
                                     (fst sp) (snd sp)))).
Proof.
  destruct w as [d f o]. unfold main, build, fetch.
  cbv [seq lift ret makedirs read_file path_exists files dirs stdout].
  destruct (lookup OUT_DIR f) eqn:E1; [untouched|].
  destruct (lookup COVERS_DIR f) eqn:E2; [untouched|].
  destruct (lookup BOOKS_FILE f) as [raw_catalog|] eqn:E3; [|untouched].
  destruct (json_load e raw_catalog) as [catalog|] eqn:E4; [|untouched].
  destruct (random_choice e catalog) as [b|] eqn:E5; [|untouched].
  destruct (bk_gutenberg_url b) as [url|] eqn:E6; cbn [getitem]; [|untouched].
  destruct (requests_get e url) as [resp|] eqn:E7; [|untouched].
  destruct (raise_for_status resp) as [[]|] eqn:E8; [|untouched].
  destruct (pick (text resp)) as [sp|] eqn:E9; [|untouched].
  match goal with
  | |- context [lookup (OUT_DIR ++ ?x) f] =>
      destruct (lookup (OUT_DIR ++ x) f) eqn:E0
  end;
    (destruct (bk_title b) as [title|] eqn:E10; cbn [getitem]; [|untouched]);
    (destruct (bk_author b) as [author|] eqn:E11; cbn [getitem]; [|untouched]);
    unfold write_file, print; cbv [files dirs stdout];
    (match goal with
     | |- context [existsb (Str.eqb INDEX_HTML) ?l] =>
         destruct (existsb (Str.eqb INDEX_HTML) l); [untouched|]
     end);
    (match goal with
     | |- context [write_error e ?c] =>
         destruct (write_error e c) as [[ex' n]|] eqn:E12
     end);
    [ | destruct (print_error e) as [ex'|] eqn:E13; [|now_raised]
      | | destruct (print_error e) as [ex'|] eqn:E13; [|now_raised] ];
    intros _; cbn [fst snd files stdout];
    (split; [intros p Hp; now apply lookup_store_other|]);
    right; exists b, resp, title, author, sp; eexists;
    [ exists n | eexists | exists n | eexists ];
    (split; [exact E10|]); (split; [exact E11|]);
    (split; [rewrite E6; cbn [option_map]; now rewrite E7|]);
    (split; [exact E8|]); (split; [exact E9|]);
    rewrite lookup_store_same; try reflexivity;
    f_equal; symmetry; apply firstn_all.
Qed.

(** When the writing raises before a byte has reached the file, the
    catalog is as it was and the page of the day before is gone: the file
    is empty. *)
Lemma main_raising_spares_the_other_files_witness :
  snd (main env_write_raises disk) = Raise OSError
  /\ lookup BOOKS_FILE (files (fst (main env_write_raises disk)))
     = Some catalog_text
  /\ lookup INDEX_HTML (files disk) = Some old_page
  /\ lookup INDEX_HTML (files (fst (main env_write_raises disk))) = Some [].
Proof.
  assert (H : snd (main env_write_raises disk) = Raise OSError)
    by (vm_compute; reflexivity).
  split; [exact H|]. split; [|split; vm_compute; reflexivity].
  destruct (@main_raising_spares_the_other_files env_write_raises disk OSError H)
    as [Hp _].
  rewrite Hp; [reflexivity|]. vm_compute. discriminate.
Defined.

(** Extra X22.  A run that ends without an exception has written one
    file, [docs/index.html], which holds the page made of the date, of the
    title and the author of an entry of the catalog and of the excerpt of
    the text fetched from its address; every other file is as it was, both
    directories exist and the message is printed. *)
Theorem main_writes_only_the_page (e : env) (w : world) :
  snd (main e w) = Ok tt ->
  (exists raw_catalog catalog b resp title author sp cover_exists,
      lookup BOOKS_FILE (files w) = Some raw_catalog
      /\ json_load e raw_catalog = Ok catalog
      /\ In b catalog
      /\ bk_title b = Some title
      /\ bk_author b = Some author
      /\ option_map (requests_get e) (bk_gutenberg_url b) = Some (Ok resp)
      /\ raise_for_status resp = Ok tt
      /\ pick (text resp) = Ok sp
      /\ lookup INDEX_HTML (files (fst (main e w)))
         = Some (page (today_text e) title author (cover_path_of b)
                      cover_exists (fst sp) (snd sp)))
  /\ (forall p, p <> INDEX_HTML ->
                lookup p (files (fst (main e w))) = lookup p (files w))
  /\ stdout (fst (main e w)) = stdout w ++ [lit "Generated daily one-pager."]
  /\ In OUT_DIR (dirs (fst (main e w)))
  /\ In COVERS_DIR (dirs (fst (main e w))).
Proof.
  destruct w as [d f o]. unfold main, build, fetch.
  cbv [seq lift ret makedirs read_file path_exists files dirs stdout].
  destruct (lookup OUT_DIR f) eqn:E1; [now_raised|].
  destruct (lookup COVERS_DIR f) eqn:E2; [now_raised|].
  destruct (lookup BOOKS_FILE f) as [raw_catalog|] eqn:E3; [|now_raised].
  destruct (json_load e raw_catalog) as [catalog|] eqn:E4; [|now_raised].
  destruct (random_choice e catalog) as [b|] eqn:E5; [|now_raised].
  destruct (getitem (bk_gutenberg_url b)) as [url|] eqn:E6; [|now_raised].
  destruct (requests_get e url) as [resp|] eqn:E7; [|now_raised].
  destruct (raise_for_status resp) eqn:E8; [|now_raised].
  destruct (pick (text resp)) as [sp|] eqn:E9; [|now_raised].
  match goal with
  | |- context [lookup (OUT_DIR ++ ?x) f] =>
      destruct (lookup (OUT_DIR ++ x) f) eqn:E0
  end;
    (destruct (getitem (bk_title b)) as [title|] eqn:E10; [|now_raised]);
    (destruct (getitem (bk_author b)) as [author|] eqn:E11; [|now_raised]);
    unfold write_file, print; cbv [files dirs stdout];
    (match goal with
     | |- context [existsb (Str.eqb INDEX_HTML) ?l] =>
         destruct (existsb (Str.eqb INDEX_HTML) l); [now_raised|]
     end);
    (match goal with
     | |- context [write_error e ?c] =>
         destruct (write_error e c) as [[ex' n]|] eqn:E12; [now_raised|]
     end);
    (destruct (print_error e) as [ex'|] eqn:E13; [now_raised|]);
    intros _; cbn [fst snd files dirs stdout];
    (split; [|split; [|split; [|split]]];
     [ exists raw_catalog, catalog, b, resp, title, author, sp;
       eexists; split; [reflexivity|]; split; [exact E4|]; split;
       [ unfold random_choice in E5;
         destruct (nth_error catalog _) as [b'|] eqn:N; [|discriminate];
         injection E5 as <-; eapply nth_error_In; exact N
       | unfold getitem in *;
         destruct (bk_title b); [|discriminate]; injection E10 as ->;
         destruct (bk_author b); [|discriminate]; injection E11 as ->;
         destruct (bk_gutenberg_url b); [|discriminate]; injection E6 as ->;
         split; [reflexivity|]; split; [reflexivity|]; simpl option_map;
         rewrite E7; split; [reflexivity|]; split; [now destruct a|];
         split; [exact E9|];
         apply lookup_store_same ]
     | intros p Hp; now apply lookup_store_other
     | reflexivity
     | right; now left
     | now left ]).
Qed.

Lemma main_writes_only_the_page_witness :
  snd (main env_up disk) = Ok tt
  /\ lookup BOOKS_FILE (files (fst (main env_up disk)))
     = lookup BOOKS_FILE (files disk).
Proof.
  assert (H : snd (main env_up disk) = Ok tt) by (vm_compute; reflexivity).
  split; [exact H|].
  destruct (@main_writes_only_the_page env_up disk H) as (_ & Hp & _).
  apply Hp. vm_compute. discriminate.
Defined.

End ScriptEffectFacts.
